(** * The system-call boundary of the kernel (userprog/syscall.c)

    A shallow embedding of the system-call handlers and of the dispatcher.
    Kernel code runs in a state-and-stop monad over a [world]: the running
    thread's control block, the filesystem lock, the saved interrupt frame,
    the state of everything the handlers only call into, and the trace of
    those calls.  A computation either returns to its caller or stops the
    flow of control for good ([thread_exit], [power_off], a successful
    [process_exec]). *)

From Stdlib Require Import ZArith Lia.
From stdpp Require Import base list strings.

Local Open Scope Z_scope.

(** ** Machine integers *)

(** Conversion of a wider value to [int] (32 bits, two's complement). *)
Definition to_int (x : Z) : Z := (x + 2 ^ 31) mod 2 ^ 32 - 2 ^ 31.

(** Conversion to [unsigned] (32 bits). *)
Definition to_unsigned (x : Z) : Z := x mod 2 ^ 32.

(** Conversion to [uint64_t], the width of a register. *)
Definition to_uint64 (x : Z) : Z := x mod 2 ^ 64.

(** [bool] stored into a register. *)
Definition of_bool (b : bool) : Z := if b then 1 else 0.

Definition STDIN_FILENO : Z := 0.
Definition STDOUT_FILENO : Z := 1.

(** ** Data *)

(** A [struct file *] that is not [NULL]; [option file] is a nullable one. *)
Definition file := Z.

(** The general-purpose registers the system-call convention uses. *)
Record gp_registers := {
  rax : Z; rdi : Z; rsi : Z; rdx : Z; r10 : Z; r8 : Z; r9 : Z
}.

Record intr_frame := { R : gp_registers; rip : Z; eflags : Z; rsp : Z }.

Definition set_rax (v : Z) (f : intr_frame) : intr_frame :=
  {| R := {| rax := v; rdi := rdi (R f); rsi := rsi (R f); rdx := rdx (R f);
             r10 := r10 (R f); r8 := r8 (R f); r9 := r9 (R f) |};
     rip := rip f; eflags := eflags f; rsp := rsp f |}.

(** Calls that leave this file, in the order they happen. *)
Inductive event :=
| EvPowerOff
| EvPrintf (name : string) (status : Z)   (* printf ("%s: exit(%d)\n", ..) *)
| EvThreadExit
| EvFilesysCreate (path size : Z)
| EvFilesysRemove (path : Z)
| EvFilesysOpen (path : Z)
| EvFree (f : file)
| EvFileLength (f : file)
| EvPallocGetPage (flags : Z)
| EvStrlcpy (dst src size : Z)
| EvProcessExec (f_name : Z)
| EvLockAcquire
| EvLockRelease
| EvInputGetc
| EvStoreByte (addr c : Z)                 (* *ptr = c *)
| EvFileRead (f : file) (buffer size : Z)
| EvPutbuf (buffer size : Z)
| EvFileWrite (f : file) (buffer size : Z)
| EvFileSeek (f : file) (position : Z)
| EvFileTell (f : file)
| EvFileClose (f : option file)
| EvProcessWait (pid : Z)
| EvProcessFork (name : Z) (if_ : intr_frame).

(** Why a computation did not return to its caller. *)
Inductive stop :=
| ThreadExit        (* thread_exit () *)
| PowerOff          (* power_off () *)
| ImageReplaced     (* process_exec () jumped into the new image *)
| KernelPanic       (* a failed ASSERT *)
| OutOfBounds.      (* an array access outside the array *)

(** ** Collaborators

    Everything the handlers call and this file does not define: the
    filesystem, the page table, the page allocator, the console, the
    process code, and the constants of headers.  Each is a function of the
    state of the rest of the machine. *)
Class Collaborators := {
  machine : Type;
  pagetable : Type;
  (* threads/vaddr.h, threads/mmu.h, threads/palloc.h *)
  PGSIZE : Z;
  is_user_vaddr : Z → bool;
  pml4_get_page : pagetable → Z → Z;
  palloc_get_page : Z → machine → Z * machine;
  (* threads/thread.h *)
  FDT_COUNT_LIMIT : Z;
  (* lib/syscall-nr.h *)
  SYS_HALT : Z; SYS_EXIT : Z; SYS_FORK : Z; SYS_EXEC : Z; SYS_WAIT : Z;
  SYS_CREATE : Z; SYS_REMOVE : Z; SYS_OPEN : Z; SYS_FILESIZE : Z;
  SYS_READ : Z; SYS_WRITE : Z; SYS_SEEK : Z; SYS_TELL : Z; SYS_CLOSE : Z;
  syscall_nr_distinct :
    NoDup [SYS_HALT; SYS_EXIT; SYS_FORK; SYS_EXEC; SYS_WAIT; SYS_CREATE;
           SYS_REMOVE; SYS_OPEN; SYS_FILESIZE; SYS_READ; SYS_WRITE;
           SYS_SEEK; SYS_TELL; SYS_CLOSE];
  (* filesys/filesys.h, filesys/file.h *)
  filesys_create : Z → Z → machine → bool * machine;
  filesys_remove : Z → machine → bool * machine;
  filesys_open : Z → machine → option file * machine;
  file_length : file → machine → Z * machine;
  file_read : file → Z → Z → machine → Z * machine;
  file_write : file → Z → Z → machine → Z * machine;
  file_seek : file → Z → machine → unit * machine;
  file_tell : file → machine → Z * machine;
  file_close : option file → machine → unit * machine;
  free : file → machine → unit * machine;
  (* lib/stdio.h, lib/string.h, devices/input.h, lib/kernel/console.h *)
  printf : string → Z → machine → unit * machine;
  strlcpy : Z → Z → Z → machine → unit * machine;
  input_getc : machine → Z * machine;
  store_byte : Z → Z → machine → unit * machine;
  putbuf : Z → Z → machine → unit * machine;
  (* userprog/process.h *)
  process_exec : Z → machine → bool * machine;
  process_wait : Z → machine → Z * machine;
  process_fork : Z → intr_frame → machine → Z * machine;
  (* the value of a function that ends without a return statement *)
  indeterminate : machine → Z
}.

Section Kernel.
Context `{C : Collaborators}.

(** The slice of [struct thread] the handlers touch. *)
Record thread := {
  name : string;
  exit_status : Z;
  fdt : list (option file);
  next_fd : Z;
  pml4 : pagetable;
  parent_if : intr_frame
}.

Definition set_exit_status (s : Z) (t : thread) : thread :=
  {| name := name t; exit_status := s; fdt := fdt t; next_fd := next_fd t;
     pml4 := pml4 t; parent_if := parent_if t |}.

Definition set_fdt (l : list (option file)) (t : thread) : thread :=
  {| name := name t; exit_status := exit_status t; fdt := l;
     next_fd := next_fd t; pml4 := pml4 t; parent_if := parent_if t |}.

Definition set_next_fd (n : Z) (t : thread) : thread :=
  {| name := name t; exit_status := exit_status t; fdt := fdt t;
     next_fd := n; pml4 := pml4 t; parent_if := parent_if t |}.

Definition set_parent_if (f : intr_frame) (t : thread) : thread :=
  {| name := name t; exit_status := exit_status t; fdt := fdt t;
     next_fd := next_fd t; pml4 := pml4 t; parent_if := f |}.

Record world := {
  cur : thread;            (* thread_current () *)
  filesys_lock : bool;     (* held by the running thread *)
  frame : intr_frame;      (* the frame syscall_handler was given *)
  mach : machine;
  trace : list event
}.

Definition set_cur (t : thread) (w : world) : world :=
  {| cur := t; filesys_lock := filesys_lock w; frame := frame w;
     mach := mach w; trace := trace w |}.

Definition set_filesys_lock (b : bool) (w : world) : world :=
  {| cur := cur w; filesys_lock := b; frame := frame w;
     mach := mach w; trace := trace w |}.

Definition set_frame (f : intr_frame) (w : world) : world :=
  {| cur := cur w; filesys_lock := filesys_lock w; frame := f;
     mach := mach w; trace := trace w |}.

Definition set_mach (m : machine) (w : world) : world :=
  {| cur := cur w; filesys_lock := filesys_lock w; frame := frame w;
     mach := m; trace := trace w |}.

Definition log (e : event) (w : world) : world :=
  {| cur := cur w; filesys_lock := filesys_lock w; frame := frame w;
     mach := mach w; trace := trace w ++ [e] |}.

(** ** The monad *)

Inductive outcome (A : Type) :=
| Ret (a : A) (w : world)
| Stop (s : stop) (w : world).
Arguments Ret {A} a w.
Arguments Stop {A} s w.

Definition M (A : Type) : Type := world → outcome A.

Definition ret {A} (a : A) : M A := fun w => Ret a w.

Definition bind {A B} (m : M A) (k : A → M B) : M B :=
  fun w => match m w with
           | Ret a w' => k a w'
           | Stop s w' => Stop s w'
           end.

Notation "x <- m ;; k" := (bind m (fun x => k))
  (at level 100, m at next level, right associativity).
Notation "m ;; k" := (bind m (fun _ => k))
  (at level 100, right associativity).

(** The world an outcome ends in. *)
Definition final {A} (o : outcome A) : world :=
  match o with Ret _ w => w | Stop _ w => w end.

(** The value an outcome returned, if it returned. *)
Definition returned {A} (o : outcome A) : option A :=
  match o with Ret a _ => Some a | Stop _ _ => None end.

Definition stops {A} (s : stop) : M A := fun w => Stop s w.

(** One call to a collaborator: it is logged, and the machine moves on. *)
Definition call {A} (e : event) (f : machine → A * machine) : M A :=
  fun w => let (a, m) := f (mach w) in Ret a (set_mach m (log e w)).

Definition thread_current : M thread := fun w => Ret (cur w) w.

Definition modify_thread (f : thread → thread) : M unit :=
  fun w => Ret tt (set_cur (f (cur w)) w).

(** [fdt[i]] as an rvalue and [fdt[i] = v]; the table has [length fdt]
    slots and C gives no meaning to an access outside them. *)
Definition fdt_get (i : Z) : M (option file) :=
  fun w => if (0 <=? i) && (i <? Z.of_nat (length (fdt (cur w))))
           then Ret (default None (fdt (cur w) !! Z.to_nat i)) w
           else Stop OutOfBounds w.

Definition fdt_set (i : Z) (v : option file) : M unit :=
  fun w => if (0 <=? i) && (i <? Z.of_nat (length (fdt (cur w))))
           then Ret tt (set_cur (set_fdt (<[Z.to_nat i := v]> (fdt (cur w))) (cur w)) w)
           else Stop OutOfBounds w.

(** Modelled from the spec: threads/synch.c is absent.  The filesystem lock
    is "a single mutual-exclusion lock ... not re-entrant": taking it while
    the running thread holds it, or releasing it while it does not, fails
    an assertion.  Waiting for another holder is not modelled. *)
Definition lock_acquire : M unit :=
  fun w => if filesys_lock w then Stop KernelPanic w
           else Ret tt (set_filesys_lock true (log EvLockAcquire w)).

(** Modelled from the spec: the release of the same lock, by its holder
    only. *)
Definition lock_release : M unit :=
  fun w => if filesys_lock w
           then Ret tt (set_filesys_lock false (log EvLockRelease w))
           else Stop KernelPanic w.

(** ** The handlers of userprog/syscall.c *)

(** Modelled from the spec: threads/thread.c is absent.  [thread_exit]
    "terminates calling process": control never comes back from it. *)
Definition thread_exit : M unit :=
  fun w => Stop ThreadExit (log EvThreadExit w).

(** Modelled from the spec: threads/init.c is absent.  [power_off] "shuts
    down the machine; never returns". *)
Definition power_off : M unit :=
  fun w => Stop PowerOff (log EvPowerOff w).

Definition exit (status : Z) : M unit :=
  curr <- thread_current ;;
  modify_thread (set_exit_status status) ;;
  call (EvPrintf (name curr) status) (printf (name curr) status) ;;
  thread_exit.

Definition check_address (addr : Z) : M unit :=
  t <- thread_current ;;
  if negb (is_user_vaddr addr) || (addr =? 0) || (pml4_get_page (pml4 t) addr =? 0)
  then exit (-1)
  else ret tt.

Definition halt : M unit := power_off.

Definition create (path initial_size : Z) : M bool :=
  check_address path ;;
  call (EvFilesysCreate path initial_size) (filesys_create path initial_size).

Definition remove (path : Z) : M bool :=
  check_address path ;;
  call (EvFilesysRemove path) (filesys_remove path).

(** Modelled from the spec: the scan of process_add_file, "for the first
    empty slot"; [i] is the index of the head of [slots]. *)
Fixpoint first_empty (slots : list (option file)) (i : Z) : option Z :=
  match slots with
  | [] => None
  | None :: _ => Some i
  | Some _ :: rest => first_empty rest (i + 1)
  end.

(** Modelled from the spec: process_add_file is defined in
    userprog/process.c, which is absent.  "Scans slots from a cursor ...
    for the first empty slot, stores the handle, returns its index.
    Returns a distinguished failure value when the table has no free slot";
    the cursor is [next_fd], "next candidate slot for allocation (monotonic
    search cursor)", and the table has FDT_COUNT_LIMIT slots. *)
Definition process_add_file (f : file) : M Z :=
  curr <- thread_current ;;
  let window := drop (Z.to_nat (next_fd curr))
                     (take (Z.to_nat FDT_COUNT_LIMIT) (fdt curr)) in
  match first_empty window (next_fd curr) with
  | None => ret (-1)
  | Some i =>
      fdt_set i (Some f) ;;
      modify_thread (set_next_fd (i + 1)) ;;
      ret i
  end.

Definition open (path : Z) : M Z :=
  check_address path ;;
  f <- call (EvFilesysOpen path) (filesys_open path) ;;
  match f with
  | None => ret (-1)
  | Some h =>
      fd <- process_add_file h ;;
      (if fd =? -1 then call (EvFree h) (free h) else ret tt) ;;
      ret fd
  end.

Definition process_get_file (fd : Z) : M (option file) :=
  if (fd <? 2) || (fd >=? FDT_COUNT_LIMIT) then ret None
  else fdt_get fd.

Definition filesize (fd : Z) : M Z :=
  f <- process_get_file fd ;;
  match f with
  | None => ret (-1)
  | Some h => call (EvFileLength h) (file_length h)
  end.

(** Control reaching the end of a function that returns a value. *)
Definition falls_off_end : M Z := fun w => Ret (indeterminate (mach w)) w.

(** Modelled from the spec: process_exec is defined in userprog/process.c,
    which is absent.  "exec(command) -> success|fail (replaces current
    image, does not return on success)"; failure is the return value -1. *)
Definition do_process_exec (f_name : Z) : M Z :=
  ok <- call (EvProcessExec f_name) (process_exec f_name) ;;
  if ok : bool then stops ImageReplaced else ret (-1).

Definition exec (cmd_line : Z) : M Z :=
  check_address cmd_line ;;
  cmd_line_copy <- call (EvPallocGetPage 0) (palloc_get_page 0) ;;
  (if cmd_line_copy =? 0 then exit (-1) else ret tt) ;;
  call (EvStrlcpy cmd_line_copy cmd_line PGSIZE)
       (strlcpy cmd_line_copy cmd_line PGSIZE) ;;
  r <- do_process_exec cmd_line_copy ;;
  (if r =? -1 then exit (-1) else ret tt) ;;
  falls_off_end.

(** The loop [for (int i = 0; i < size; i++) { *ptr++ = input_getc ();
    bytes_read++; }] with [n] iterations to go. *)
Fixpoint read_stdin (n : nat) (ptr bytes_read : Z) : M Z :=
  match n with
  | O => ret bytes_read
  | S n' =>
      c <- call EvInputGetc input_getc ;;
      call (EvStoreByte ptr c) (store_byte ptr c) ;;
      read_stdin n' (ptr + 1) (to_int (bytes_read + 1))
  end.

Definition read (fd buffer size : Z) : M Z :=
  check_address buffer ;;
  lock_acquire ;;
  if fd =? STDIN_FILENO then
    bytes_read <- read_stdin (Z.to_nat size) buffer 0 ;;
    lock_release ;;
    ret bytes_read
  else if fd <? 2 then
    lock_release ;;
    ret (-1)
  else
    f <- process_get_file fd ;;
    match f with
    | None =>
        lock_release ;;
        ret (-1)
    | Some h =>
        bytes_read <- call (EvFileRead h buffer size) (file_read h buffer size) ;;
        lock_release ;;
        ret bytes_read
    end.

Definition write (fd buffer size : Z) : M Z :=
  check_address buffer ;;
  if fd =? STDOUT_FILENO then
    call (EvPutbuf buffer size) (putbuf buffer size) ;;
    ret (to_int size)
  else if fd <? 2 then ret (-1)
  else
    f <- process_get_file fd ;;
    match f with
    | None => ret (-1)
    | Some h =>
        lock_acquire ;;
        bytes_write <- call (EvFileWrite h buffer size) (file_write h buffer size) ;;
        lock_release ;;
        ret bytes_write
    end.

Definition seek (fd position : Z) : M unit :=
  f <- process_get_file fd ;;
  match f with
  | None => ret tt
  | Some h => call (EvFileSeek h position) (file_seek h position)
  end.

Definition tell (fd : Z) : M Z :=
  f <- process_get_file fd ;;
  match f with
  | None => falls_off_end
  | Some h => pos <- call (EvFileTell h) (file_tell h) ;; ret (to_unsigned pos)
  end.

Definition wait (pid : Z) : M Z :=
  call (EvProcessWait pid) (process_wait pid).

Definition close (fd : Z) : M unit :=
  current <- thread_current ;;
  if (fd <=? 1) || (next_fd current <=? fd) then ret tt
  else
    f <- process_get_file fd ;;
    call (EvFileClose f) (file_close f) ;;
    fdt_set fd None.

Definition fork (thread_name : Z) : M Z :=
  curr <- thread_current ;;
  call (EvProcessFork thread_name (parent_if curr))
       (process_fork thread_name (parent_if curr)).

(** ** The dispatcher *)

Definition get_frame : M intr_frame := fun w => Ret (frame w) w.

(** [f->R.rax = v] *)
Definition store_rax (v : Z) : M unit :=
  fun w => Ret tt (set_frame (set_rax (to_uint64 v) (frame w)) w).

(** [int syscall_number = f->R.rax] *)
Definition syscall_number (f : intr_frame) : Z := to_int (rax (R f)).

Definition syscall_handler : M unit :=
  f <- get_frame ;;
  let n := syscall_number f in
  let a1 := rdi (R f) in
  let a2 := rsi (R f) in
  let a3 := rdx (R f) in
  if n =? SYS_HALT then halt
  else if n =? SYS_EXIT then exit (to_int a1)
  else if n =? SYS_FORK then
    modify_thread (set_parent_if f) ;;
    r <- fork a1 ;; store_rax r
  else if n =? SYS_EXEC then r <- exec a1 ;; store_rax r
  else if n =? SYS_WAIT then r <- wait (to_int a1) ;; store_rax r
  else if n =? SYS_CREATE then
    r <- create a1 (to_unsigned a2) ;; store_rax (of_bool r)
  else if n =? SYS_REMOVE then r <- remove a1 ;; store_rax (of_bool r)
  else if n =? SYS_OPEN then r <- open a1 ;; store_rax r
  else if n =? SYS_FILESIZE then r <- filesize (to_int a1) ;; store_rax r
  else if n =? SYS_READ then
    r <- read (to_int a1) a2 (to_unsigned a3) ;; store_rax r
  else if n =? SYS_WRITE then
    r <- write (to_int a1) a2 (to_unsigned a3) ;; store_rax r
  else if n =? SYS_SEEK then seek (to_int a1) (to_unsigned a2)
  else if n =? SYS_TELL then r <- tell (to_int a1) ;; store_rax r
  else if n =? SYS_CLOSE then close (to_int a1)
  else ret tt.

End Kernel.

Arguments Ret {C A} a w.
Arguments Stop {C A} s w.

Notation "x <- m ;; k" := (bind m (fun x => k))
  (at level 100, m at next level, right associativity).
Notation "m ;; k" := (bind m (fun _ => k))
  (at level 100, right associativity).

(** ** Vocabulary of the specification *)

Section Vocabulary.
Context `{C : Collaborators}.

(** A user pointer the kernel may dereference: not null, below the kernel
    base, and on a page the thread's page table maps. *)
Definition valid_pointer (t : thread) (addr : Z) : Prop :=
  addr ≠ 0 ∧ is_user_vaddr addr = true ∧ pml4_get_page (pml4 t) addr ≠ 0.

(** The world a process leaves behind when it terminates with [status]. *)
Definition exited (status : Z) (w : world) : world :=
  let told := log (EvPrintf (name (cur w)) status)
                  (set_cur (set_exit_status status (cur w)) w) in
  log EvThreadExit (set_mach (snd (printf (name (cur w)) status (mach w))) told).


Definition is_lock_event (e : event) : bool :=
  match e with
  | EvLockAcquire | EvLockRelease => true
  | _ => false
  end.

(** No acquire and no release at all. *)
Definition lock_free (tr : list event) : bool :=
  forallb (fun e => negb (is_lock_event e)) tr.


(** How often the filesystem is asked to read. *)
Definition is_file_read (e : event) : bool :=
  match e with
  | EvFileRead _ _ _ => true
  | _ => false
  end.

Definition file_reads (tr : list event) : nat :=
  length (List.filter is_file_read tr).


(** A computation that leaves [exit_status] as it found it, unless it
    ends the thread through [exit], and then [exit] made the only
    change. *)
Definition keeps_status {A} (m : M A) : Prop :=
  ∀ w,
    match m w with
    | Ret _ w' => exit_status (cur w') = exit_status (cur w)
    | Stop s w' =>
        exit_status (cur w') = exit_status (cur w) ∨
        (s = ThreadExit ∧
         ∃ status w0, w' = exited status w0 ∧
                      exit_status (cur w0) = exit_status (cur w))
    end.

End Vocabulary.

(** ** A small machine to run the handlers on

    The console keeps a queue of typed characters, one file exists (its
    name at address [0x400000]), one user page is mapped, and the
    descriptor table has eight slots. *)

Definition demo_frame : intr_frame :=
  {| R := {| rax := 0; rdi := 0; rsi := 0; rdx := 0; r10 := 0; r8 := 0; r9 := 0 |};
     rip := 0; eflags := 0; rsp := 0 |}.

Lemma demo_nr_distinct : NoDup [0; 1; 2; 3; 4; 5; 6; 7; 8; 9; 10; 11; 12; 13].
Proof. apply (bool_decide_unpack _). vm_compute. exact I. Qed.

Definition demo : Collaborators := {|
  machine := list Z;
  pagetable := list Z;
  PGSIZE := 4096;
  is_user_vaddr := fun a => a <? 0x8004000000;
  pml4_get_page := fun pt a =>
    if existsb (Z.eqb (a / 4096)) pt then 0x8004000000 + a else 0;
  palloc_get_page := fun _ m => (0x8004100000, m);
  FDT_COUNT_LIMIT := 8;
  SYS_HALT := 0; SYS_EXIT := 1; SYS_FORK := 2; SYS_EXEC := 3; SYS_WAIT := 4;
  SYS_CREATE := 5; SYS_REMOVE := 6; SYS_OPEN := 7; SYS_FILESIZE := 8;
  SYS_READ := 9; SYS_WRITE := 10; SYS_SEEK := 11; SYS_TELL := 12;
  SYS_CLOSE := 13;
  syscall_nr_distinct := demo_nr_distinct;
  filesys_create := fun _ _ m => (true, m);
  filesys_remove := fun path m => (path =? 0x400000, m);
  filesys_open := fun path m =>
    (if path =? 0x400000 then Some 0x8004200000 else None, m);
  file_length := fun _ m => (0, m);
  file_read := fun _ _ _ m => (0, m);
  file_write := fun _ _ size m => (size, m);
  file_seek := fun _ _ m => (tt, m);
  file_tell := fun _ m => (0, m);
  file_close := fun _ m => (tt, m);
  free := fun _ m => (tt, m);
  printf := fun _ _ m => (tt, m);
  strlcpy := fun _ _ _ m => (tt, m);
  input_getc := fun m => match m with c :: m' => (c, m') | [] => (0, []) end;
  store_byte := fun _ _ m => (tt, m);
  putbuf := fun _ _ m => (tt, m);
  process_exec := fun _ m => (false, m);
  process_wait := fun _ m => (-1, m);
  process_fork := fun _ _ m => (3, m);
  indeterminate := fun _ => 0
|}.

Definition demo_thread (slots : list (option file)) (cursor : Z) : @thread demo :=
  @Build_thread demo "main" 0 slots cursor (0x400 :: nil) demo_frame.

Definition demo_world (slots : list (option file)) (cursor : Z) : @world demo :=
  @Build_world demo (demo_thread slots cursor) false demo_frame nil [].

(** A process that has opened nothing yet. *)
Definition fresh_world : @world demo := demo_world (replicate 8 None) 2.

(** The one mapped user address of the small machine. *)
Definition user_buffer : Z := 0x400000.


(** A process with one open file, at descriptor 2. *)
Definition one_open_world : @world demo :=
  demo_world (None :: None :: Some 9 :: replicate 5 None) 3.

(** The frame of a system call numbered [n] with first argument [a]. *)
Definition call_world (n a : Z) : @world demo :=
  @Build_world demo (demo_thread (replicate 8 None) 2) false
    {| R := {| rax := n; rdi := a; rsi := 0; rdx := 0; r10 := 0; r8 := 0; r9 := 0 |};
       rip := 0; eflags := 0; rsp := 0 |}
    nil [].

(** ** Vocabulary of the frame conditions *)

Section Frames.
Context `{C : Collaborators}.

(** [m] keeps the relation [P] between the world it starts in and the
    world it ends in, whether it returns or stops. *)
Definition preserves {A} (P : world → world → Prop) (m : M A) : Prop :=
  ∀ w, P w (final (m w)).

(** The interrupt frame is as it was. *)
Definition same_frame (w w' : world) : Prop := frame w' = frame w.

(** The interrupt frame is as it was, [rax] apart. *)
Definition same_registers_but_rax (w w' : world) : Prop :=
  set_rax 0 (frame w') = set_rax 0 (frame w).


(** No acquire, no release, and the lock in the state it was. *)
Definition lock_untouched (w w' : world) : Prop :=
  filesys_lock w' = filesys_lock w ∧
  ∃ d, trace w' = trace w ++ d ∧ lock_free d = true.



(** Descriptor [fd] names no open file: it is outside [2, FDT_COUNT_LIMIT)
    or its slot is empty. *)
Definition no_file (t : thread) (fd : Z) : Prop :=
  fd < 2 ∨ FDT_COUNT_LIMIT ≤ fd ∨ fdt t !! Z.to_nat fd = Some None.

(** Descriptor [fd] names the open file [h]. *)
Definition open_file (t : thread) (fd : Z) (h : file) : Prop :=
  2 ≤ fd < FDT_COUNT_LIMIT ∧ fdt t !! Z.to_nat fd = Some (Some h).

End Frames.


(** A process whose cursor ran past the end of its table. *)
Definition overrun_world : @world demo :=
  demo_world (None :: None :: replicate 6 (Some 9)) 12.

(** ** Facts *)

Section Facts.
Context `{C : Collaborators}.

Lemma bind_ret {A B} (m : M A) (k : A → M B) w a w' :
  m w = Ret a w' → bind m k w = k a w'.
Proof. unfold bind. intros ->. reflexivity. Qed.

Lemma bind_stop {A B} (m : M A) (k : A → M B) w s w' :
  m w = Stop s w' → bind m k w = Stop s w'.
Proof. unfold bind. intros ->. reflexivity. Qed.

Lemma call_eq {A} e (f : machine → A * machine) w :
  call e f w = Ret (fst (f (mach w))) (set_mach (snd (f (mach w))) (log e w)).
Proof. unfold call. destruct (f (mach w)). reflexivity. Qed.

Lemma exit_eq status w : exit status w = Stop ThreadExit (exited status w).
Proof.
  unfold exit, exited, bind, thread_current, modify_thread, thread_exit.
  rewrite call_eq. reflexivity.
Qed.

Lemma exit_then {B} status (k : unit → M B) w :
  bind (exit status) k w = Stop ThreadExit (exited status w).
Proof. apply bind_stop, exit_eq. Qed.

Lemma valid_pointer_test (t : thread) addr :
  negb (is_user_vaddr addr) || (addr =? 0) || (pml4_get_page (pml4 t) addr =? 0) = false
  ↔ valid_pointer t addr.
Proof.
  unfold valid_pointer.
  rewrite !orb_false_iff, negb_false_iff, !Z.eqb_neq. tauto.
Qed.

Lemma valid_pointer_dec (t : thread) addr :
  valid_pointer t addr ∨ ¬ valid_pointer t addr.
Proof.
  rewrite <- valid_pointer_test.
  destruct (negb _ || _ || _); [right | left]; congruence.
Qed.

Lemma check_address_valid addr w :
  valid_pointer (cur w) addr → check_address addr w = Ret tt w.
Proof.
  intros H%valid_pointer_test.
  unfold check_address, bind, thread_current. rewrite H. reflexivity.
Qed.

Lemma check_address_invalid addr w :
  ¬ valid_pointer (cur w) addr →
  check_address addr w = Stop ThreadExit (exited (-1) w).
Proof.
  intros H. unfold check_address, bind, thread_current.
  destruct (negb _ || _ || _) eqn:E.
  - apply exit_eq.
  - apply valid_pointer_test in E. contradiction.
Qed.

Lemma checked_invalid {B} addr (k : unit → M B) w :
  ¬ valid_pointer (cur w) addr →
  bind (check_address addr) k w = Stop ThreadExit (exited (-1) w).
Proof. intros H. apply bind_stop, check_address_invalid, H. Qed.

Lemma checked_valid {B} addr (k : unit → M B) w :
  valid_pointer (cur w) addr →
  bind (check_address addr) k w = k tt w.
Proof. intros H. apply bind_ret, check_address_valid, H. Qed.

(** C1.  [check_address] ends the calling process with status -1 exactly
    when the pointer is null, outside user space, or on an unmapped page;
    on a valid pointer it returns and the world is as before.  After a
    failed check nothing else of create, remove, open, exec, read or write
    runs: each ends in the world [exit (-1)] alone leaves, whose trace
    grew by the termination message and [thread_exit] only. *)
Theorem check_address_contract addr w :
  (valid_pointer (cur w) addr ∧ check_address addr w = Ret tt w) ∨
  ((addr = 0 ∨ is_user_vaddr addr = false ∨ pml4_get_page (pml4 (cur w)) addr = 0) ∧
   check_address addr w = Stop ThreadExit (exited (-1) w) ∧
   exit (-1) w = Stop ThreadExit (exited (-1) w) ∧
   exit_status (cur (exited (-1) w)) = -1 ∧
   trace (exited (-1) w) =
     trace w ++ [EvPrintf (name (cur w)) (-1); EvThreadExit] ∧
   (∀ size, create addr size w = Stop ThreadExit (exited (-1) w)) ∧
   remove addr w = Stop ThreadExit (exited (-1) w) ∧
   open addr w = Stop ThreadExit (exited (-1) w) ∧
   exec addr w = Stop ThreadExit (exited (-1) w) ∧
   (∀ fd size, read fd addr size w = Stop ThreadExit (exited (-1) w)) ∧
   (∀ fd size, write fd addr size w = Stop ThreadExit (exited (-1) w))).
Proof.
  destruct (valid_pointer_dec (cur w) addr) as [Hv | Hn].
  - left. split; [exact Hv | apply check_address_valid, Hv].
  - right. split.
    + unfold valid_pointer in Hn.
      destruct (Z.eq_dec addr 0); [tauto |].
      destruct (is_user_vaddr addr); [| tauto].
      destruct (Z.eq_dec (pml4_get_page (pml4 (cur w)) addr) 0); tauto.
    + repeat split; intros;
        first [ apply check_address_invalid, Hn
              | apply exit_eq
              | apply (checked_invalid _ _ _ Hn)
              | unfold exited; simpl; rewrite <- app_assoc; reflexivity ].
Qed.

Lemma process_get_file_outside fd w :
  fd < 2 ∨ FDT_COUNT_LIMIT ≤ fd → process_get_file fd w = Ret None w.
Proof.
  intros H. unfold process_get_file.
  destruct (fd <? 2) eqn:E1; [reflexivity |].
  destruct (fd >=? FDT_COUNT_LIMIT) eqn:E2; [reflexivity |].
  lia.
Qed.

Lemma process_get_file_inside fd w :
  2 ≤ fd < FDT_COUNT_LIMIT →
  process_get_file fd w = fdt_get fd w.
Proof.
  intros H. unfold process_get_file.
  destruct (fd <? 2) eqn:E1; [lia |].
  destruct (fd >=? FDT_COUNT_LIMIT) eqn:E2; [lia | reflexivity].
Qed.

Lemma fdt_get_slot fd w x :
  0 ≤ fd → fdt (cur w) !! Z.to_nat fd = Some x → fdt_get fd w = Ret x w.
Proof.
  intros Hfd Hx. unfold fdt_get.
  pose proof (lookup_lt_Some _ _ _ Hx) as Hlt.
  destruct (0 <=? fd) eqn:E1; [| lia].
  destruct (fd <? Z.of_nat (length (fdt (cur w)))) eqn:E2; [| lia].
  simpl. rewrite Hx. reflexivity.
Qed.

Lemma process_get_file_slot fd w x :
  2 ≤ fd < FDT_COUNT_LIMIT → fdt (cur w) !! Z.to_nat fd = Some x →
  process_get_file fd w = Ret x w.
Proof.
  intros H Hx. rewrite process_get_file_inside by exact H.
  apply fdt_get_slot; [lia | exact Hx].
Qed.

(** C4.  [process_get_file] answers without reading the table when [fd] is
    below 2 or not below FDT_COUNT_LIMIT; and on a table of
    FDT_COUNT_LIMIT slots it always returns, leaves the world alone, and
    its answer is [NULL] exactly when [fd < 2], or
    [fd >= FDT_COUNT_LIMIT], or slot [fd] is empty. *)
Theorem process_get_file_contract fd w :
  (fd < 2 ∨ FDT_COUNT_LIMIT ≤ fd → process_get_file fd w = Ret None w) ∧
  (FDT_COUNT_LIMIT ≤ Z.of_nat (length (fdt (cur w))) →
   ∃ r, process_get_file fd w = Ret r w ∧
        (r = None ↔
         fd < 2 ∨ FDT_COUNT_LIMIT ≤ fd ∨ fdt (cur w) !! Z.to_nat fd = Some None)).
Proof.
  split; [apply process_get_file_outside |].
  intros Hlen.
  destruct (Z_lt_ge_dec fd 2) as [Hlo | Hlo].
  { exists None. split; [apply process_get_file_outside; lia | tauto]. }
  destruct (Z_lt_ge_dec fd FDT_COUNT_LIMIT) as [Hhi | Hhi].
  2:{ exists None. split; [apply process_get_file_outside; lia |].
      split; [intros _; right; left; lia | reflexivity]. }
  destruct (lookup_lt_is_Some_2 (fdt (cur w)) (Z.to_nat fd)) as [x Hx]; [lia |].
  exists x. split; [apply process_get_file_slot; [lia | exact Hx] |].
  rewrite Hx. split.
  - intros ->. right. right. reflexivity.
  - intros [? | [? | ?]]; [lia | lia | congruence].
Qed.

Lemma to_int_small x : - 2 ^ 31 ≤ x < 2 ^ 31 → to_int x = x.
Proof.
  intros H. unfold to_int.
  rewrite Z.mod_small by lia. lia.
Qed.

(** C5, as the code has it.  With a valid buffer: for [fd] 1 the handler
    hands [buffer] and [size] to [putbuf] once, takes no lock, and returns
    [size] converted to [int], which is [size] itself up to [INT_MAX]; for
    any other [fd] below 2, and for an [fd] that [process_get_file] maps
    to no file, it returns -1 and does nothing; otherwise it returns what
    file_write returned. *)
Theorem write_contract fd buffer size w :
  valid_pointer (cur w) buffer →
  (fd = 1 →
   write fd buffer size w =
     Ret (to_int size)
         (set_mach (snd (putbuf buffer size (mach w)))
                   (log (EvPutbuf buffer size) w)) ∧
   (0 ≤ size < 2 ^ 31 → to_int size = size)) ∧
  (fd < 2 → fd ≠ 1 → write fd buffer size w = Ret (-1) w) ∧
  (fd ≠ 1 → process_get_file fd w = Ret None w →
   write fd buffer size w = Ret (-1) w) ∧
  (∀ h, 2 ≤ fd → process_get_file fd w = Ret (Some h) w →
        filesys_lock w = false →
        ∃ w', write fd buffer size w =
                Ret (fst (file_write h buffer size (mach w))) w' ∧
              trace w' = trace w ++
                [EvLockAcquire; EvFileWrite h buffer size; EvLockRelease] ∧
              filesys_lock w' = false).
Proof.
  intros Hv. unfold write. rewrite (checked_valid _ _ _ Hv).
  unfold STDOUT_FILENO. split; [| split; [| split]].
  - intros ->. simpl. unfold bind. rewrite call_eq.
    split; [reflexivity |].
    intros H. apply to_int_small. lia.
  - intros Hlt Hne.
    destruct (Z.eqb_spec fd 1) as [|_]; [contradiction |].
    destruct (Z.ltb_spec fd 2); [reflexivity | lia].
  - intros Hne Hnone.
    destruct (Z.eqb_spec fd 1) as [|_]; [contradiction |].
    destruct (fd <? 2); [reflexivity |].
    unfold bind. rewrite Hnone. reflexivity.
  - intros h Hfd Hsome Hlock.
    destruct (Z.eqb_spec fd 1) as [|_]; [lia |].
    destruct (Z.ltb_spec fd 2); [lia |].
    unfold bind at 1. rewrite Hsome.
    unfold bind, lock_acquire, lock_release. rewrite Hlock.
    rewrite call_eq. simpl.
    eexists. split; [reflexivity |]. simpl.
    rewrite <- !app_assoc. split; reflexivity.
Qed.

Lemma fdt_set_slot fd v w :
  0 ≤ fd < Z.of_nat (length (fdt (cur w))) →
  fdt_set fd v w =
    Ret tt (set_cur (set_fdt (<[Z.to_nat fd := v]> (fdt (cur w))) (cur w)) w).
Proof.
  intros H. unfold fdt_set.
  destruct (0 <=? fd) eqn:E1; [| lia].
  destruct (fd <? Z.of_nat (length (fdt (cur w)))) eqn:E2; [| lia].
  reflexivity.
Qed.

Lemma close_guarded fd w :
  fd ≤ 1 ∨ next_fd (cur w) ≤ fd → close fd w = Ret tt w.
Proof.
  intros H. unfold close, bind, thread_current.
  destruct (fd <=? 1) eqn:E1; [reflexivity |].
  destruct (next_fd (cur w) <=? fd) eqn:E2; [reflexivity |].
  lia.
Qed.

Lemma close_unguarded fd w :
  2 ≤ fd < next_fd (cur w) →
  close fd w =
    (f <- process_get_file fd ;;
     call (EvFileClose f) (file_close f) ;;
     fdt_set fd None) w.
Proof.
  intros H. unfold close at 1, bind at 1, thread_current.
  destruct (fd <=? 1) eqn:E1; [lia |].
  destruct (next_fd (cur w) <=? fd) eqn:E2; [lia | reflexivity].
Qed.

(** Slots 0 and 1 of the table survive every [close]. *)
Lemma close_keeps_low fd w (i : nat) :
  (i < 2)%nat →
  fdt (cur (final (close fd w))) !! i = fdt (cur w) !! i.
Proof.
  intros Hi.
  destruct (Z_le_gt_dec fd 1) as [Hlo | Hlo].
  { rewrite close_guarded by lia. reflexivity. }
  destruct (Z_le_gt_dec (next_fd (cur w)) fd) as [Hhi | Hhi].
  { rewrite close_guarded by lia. reflexivity. }
  rewrite close_unguarded by lia.
  unfold bind, process_get_file, fdt_get, fdt_set, ret.
  destruct (_ || _); [| destruct (_ && _)]; simpl; try reflexivity;
    rewrite call_eq; simpl;
    (destruct (_ && _); simpl; [| reflexivity]);
    apply list_lookup_insert_ne; lia.
Qed.

(** C6.  [close] changes nothing when [fd <= 1] or [next_fd <= fd].  On an
    open descriptor inside the allocated range it hands the slot's file to
    file_close and empties the slot, after which [process_get_file] finds
    nothing there.  Slots 0 and 1 are the same after any [close]. *)
Theorem close_contract fd w :
  (fd ≤ 1 ∨ next_fd (cur w) ≤ fd → close fd w = Ret tt w) ∧
  (∀ h, 2 ≤ fd < next_fd (cur w) → fd < FDT_COUNT_LIMIT →
        fdt (cur w) !! Z.to_nat fd = Some (Some h) →
        ∃ w', close fd w = Ret tt w' ∧
              trace w' = trace w ++ [EvFileClose (Some h)] ∧
              mach w' = snd (file_close (Some h) (mach w)) ∧
              fdt (cur w') = <[Z.to_nat fd := None]> (fdt (cur w)) ∧
              process_get_file fd w' = Ret None w') ∧
  (fdt (cur (final (close fd w))) !! 0%nat = fdt (cur w) !! 0%nat ∧
   fdt (cur (final (close fd w))) !! 1%nat = fdt (cur w) !! 1%nat).
Proof.
  split; [apply close_guarded |].
  split; [| split; apply close_keeps_low; lia].
  intros h Hfd Hcap Hslot.
  pose proof (lookup_lt_Some _ _ _ Hslot) as Hlen.
  rewrite close_unguarded by exact Hfd.
  unfold bind at 1.
  rewrite (process_get_file_slot fd w (Some h)) by (lia || exact Hslot).
  unfold bind. rewrite call_eq.
  rewrite fdt_set_slot by (simpl; lia).
  eexists. split; [reflexivity |]. simpl.
  repeat split.
  apply process_get_file_slot; [lia |]. simpl.
  apply list_lookup_insert_eq. exact Hlen.
Qed.









(** C7.  With a valid pointer [exec] asks for a page, and when there is
    none it ends the process with status -1.  Given a page it copies the
    command line into it with [strlcpy], then calls process_exec on the
    copy, in that order; when process_exec fails it ends the process with
    status -1, and when it succeeds the new image runs.  In no case does
    [exec] return to its caller. *)
Theorem exec_contract cmd_line w :
  valid_pointer (cur w) cmd_line →
  let page := fst (palloc_get_page 0 (mach w)) in
  let w1 := set_mach (snd (palloc_get_page 0 (mach w)))
                     (log (EvPallocGetPage 0) w) in
  let w2 := set_mach (snd (strlcpy page cmd_line PGSIZE (mach w1)))
                     (log (EvStrlcpy page cmd_line PGSIZE) w1) in
  let started := fst (process_exec page (mach w2)) in
  let w3 := set_mach (snd (process_exec page (mach w2)))
                     (log (EvProcessExec page) w2) in
  (page = 0 →
   exec cmd_line w = Stop ThreadExit (exited (-1) w1) ∧
   exit_status (cur (exited (-1) w1)) = -1 ∧
   trace (exited (-1) w1) =
     trace w ++ [EvPallocGetPage 0; EvPrintf (name (cur w)) (-1); EvThreadExit]) ∧
  (page ≠ 0 → started = false →
   exec cmd_line w = Stop ThreadExit (exited (-1) w3) ∧
   exit_status (cur (exited (-1) w3)) = -1) ∧
  (page ≠ 0 → started = true → exec cmd_line w = Stop ImageReplaced w3) ∧
  trace w3 = trace w ++ [EvPallocGetPage 0; EvStrlcpy page cmd_line PGSIZE;
                         EvProcessExec page] ∧
  (∀ r w', exec cmd_line w ≠ Ret r w').
Proof.
  intros Hv page w1 w2 started w3.
  assert (Hrun : exec cmd_line w =
            if page =? 0 then Stop ThreadExit (exited (-1) w1)
            else if started then Stop ImageReplaced w3
                 else Stop ThreadExit (exited (-1) w3)).
  { unfold exec. rewrite (checked_valid _ _ _ Hv).
    unfold bind at 1. rewrite call_eq. fold page. fold w1.
    destruct (Z.eqb_spec page 0) as [E | E].
    - apply exit_then.
    - unfold bind at 1. simpl.
      unfold bind at 1. rewrite call_eq. fold w2.
      unfold do_process_exec, bind at 1. unfold bind at 1.
      rewrite call_eq. fold started. fold w3.
      destruct started; [reflexivity |].
      simpl. apply exit_then. }
  split; [| split; [| split; [| split]]].
  - intros E. rewrite Hrun, E. simpl. repeat split.
    unfold exited. simpl. rewrite <- !app_assoc. reflexivity.
  - intros E Hs. rewrite Hrun, Hs.
    destruct (Z.eqb_spec page 0); [contradiction |]. split; reflexivity.
  - intros E Hs. rewrite Hrun, Hs.
    destruct (Z.eqb_spec page 0); [contradiction | reflexivity].
  - simpl. rewrite <- !app_assoc. reflexivity.
  - intros r w'. rewrite Hrun.
    destruct (page =? 0); [discriminate |].
    destruct started; discriminate.
Qed.

(** The case labels of the dispatcher's switch are pairwise different. *)
Ltac nr_distinct :=
  let H := fresh "Hnr" in
  pose proof syscall_nr_distinct as H;
  repeat (apply NoDup_cons in H as [? H]);
  repeat match goal with
         | Hn : _ ∉ _ :: _ |- _ => apply not_elem_of_cons in Hn as [? Hn]
         end.

(** Take the switch to the case the hypotheses select. *)
Ltac switch_to :=
  unfold syscall_handler, bind at 1, get_frame; cbv zeta;
  repeat match goal with
         | |- context [?a =? ?b] =>
             destruct (Z.eqb_spec a b) as [? | ?]; [exfalso; congruence |]
         end;
  repeat match goal with
         | |- context [?a =? ?b] =>
             destruct (Z.eqb_spec a b) as [? | ?]; [| exfalso; congruence]
         end.

Lemma dispatch_none w :
  syscall_number (frame w) ∉
    [SYS_HALT; SYS_EXIT; SYS_FORK; SYS_EXEC; SYS_WAIT; SYS_CREATE; SYS_REMOVE;
     SYS_OPEN; SYS_FILESIZE; SYS_READ; SYS_WRITE; SYS_SEEK; SYS_TELL; SYS_CLOSE] →
  syscall_handler w = Ret tt w.
Proof.
  intros Hn.
  repeat (apply not_elem_of_cons in Hn as [? Hn]).
  switch_to. reflexivity.
Qed.

Lemma dispatch_halt w :
  syscall_number (frame w) = SYS_HALT → syscall_handler w = halt w.
Proof. intros Hn. switch_to. reflexivity. Qed.

Lemma dispatch_exit w :
  syscall_number (frame w) = SYS_EXIT →
  syscall_handler w = exit (to_int (rdi (R (frame w)))) w.
Proof. intros Hn. nr_distinct. switch_to. reflexivity. Qed.

Lemma dispatch_seek w :
  syscall_number (frame w) = SYS_SEEK →
  syscall_handler w =
    seek (to_int (rdi (R (frame w)))) (to_unsigned (rsi (R (frame w)))) w.
Proof. intros Hn. nr_distinct. switch_to. reflexivity. Qed.

Lemma dispatch_close w :
  syscall_number (frame w) = SYS_CLOSE →
  syscall_handler w = close (to_int (rdi (R (frame w)))) w.
Proof. intros Hn. nr_distinct. switch_to. reflexivity. Qed.

Lemma seek_keeps_frame fd position w :
  frame (final (seek fd position w)) = frame w.
Proof.
  unfold seek, bind, process_get_file, fdt_get, ret.
  destruct (_ || _); [reflexivity |].
  destruct (_ && _); [| reflexivity].
  destruct (default None _); [| reflexivity].
  rewrite call_eq. reflexivity.
Qed.

Lemma close_keeps_frame fd w :
  frame (final (close fd w)) = frame w.
Proof.
  unfold close, bind, thread_current, process_get_file, fdt_get, fdt_set, ret.
  destruct (_ || _); [reflexivity |].
  destruct (_ || _); [| destruct (_ && _)]; simpl; try reflexivity;
    rewrite call_eq; simpl; destruct (_ && _); reflexivity.
Qed.

(** C8.  When the switch has no case for the number in [rax], the
    dispatcher returns with the world, and so the whole frame, exactly as
    it found it, no call made.  For halt, exit, seek and close the
    dispatcher runs that handler and never writes the frame, so [rax]
    keeps the value the caller put there. *)
Theorem syscall_handler_contract w :
  let n := syscall_number (frame w) in
  (n ∉ [SYS_HALT; SYS_EXIT; SYS_FORK; SYS_EXEC; SYS_WAIT; SYS_CREATE;
        SYS_REMOVE; SYS_OPEN; SYS_FILESIZE; SYS_READ; SYS_WRITE; SYS_SEEK;
        SYS_TELL; SYS_CLOSE] →
   syscall_handler w = Ret tt w) ∧
  (n = SYS_HALT → syscall_handler w = halt w) ∧
  (n = SYS_EXIT → syscall_handler w = exit (to_int (rdi (R (frame w)))) w) ∧
  (n = SYS_SEEK →
   syscall_handler w =
     seek (to_int (rdi (R (frame w)))) (to_unsigned (rsi (R (frame w)))) w) ∧
  (n = SYS_CLOSE → syscall_handler w = close (to_int (rdi (R (frame w)))) w) ∧
  (n = SYS_HALT ∨ n = SYS_EXIT ∨ n = SYS_SEEK ∨ n = SYS_CLOSE →
   frame (final (syscall_handler w)) = frame w).
Proof.
  intros n. subst n.
  split; [apply dispatch_none |].
  split; [apply dispatch_halt |].
  split; [apply dispatch_exit |].
  split; [apply dispatch_seek |].
  split; [apply dispatch_close |].
  intros [H | [H | [H | H]]].
  - rewrite dispatch_halt by exact H. reflexivity.
  - rewrite dispatch_exit by exact H. rewrite exit_eq. reflexivity.
  - rewrite dispatch_seek by exact H. apply seek_keeps_frame.
  - rewrite dispatch_close by exact H. apply close_keeps_frame.
Qed.

Lemma process_get_file_total fd w :
  FDT_COUNT_LIMIT ≤ Z.of_nat (length (fdt (cur w))) →
  ∃ r, process_get_file fd w = Ret r w.
Proof.
  intros Hlen.
  destruct (Z_lt_ge_dec fd 2) as [Hlo | Hlo].
  { exists None. apply process_get_file_outside. lia. }
  destruct (Z_lt_ge_dec fd FDT_COUNT_LIMIT) as [Hhi | Hhi].
  2:{ exists None. apply process_get_file_outside. lia. }
  destruct (lookup_lt_is_Some_2 (fdt (cur w)) (Z.to_nat fd)) as [x Hx]; [lia |].
  exists x. apply process_get_file_slot; [lia | exact Hx].
Qed.

Lemma lock_free_app tr1 tr2 :
  lock_free (tr1 ++ tr2) = lock_free tr1 && lock_free tr2.
Proof. apply forallb_app. Qed.

Lemma file_reads_app tr1 tr2 :
  file_reads (tr1 ++ tr2) = (file_reads tr1 + file_reads tr2)%nat.
Proof. unfold file_reads. rewrite List.filter_app. apply length_app. Qed.

(** The console loop of [read] runs to its end, talks only to the
    keyboard and to the user's buffer, and leaves lock, thread and frame
    alone. *)
Lemma read_stdin_runs n :
  ∀ ptr bytes_read w,
  ∃ r body w',
    read_stdin n ptr bytes_read w = Ret r w' ∧
    trace w' = trace w ++ body ∧
    lock_free body = true ∧ file_reads body = 0%nat ∧
    filesys_lock w' = filesys_lock w ∧ cur w' = cur w ∧ frame w' = frame w.
Proof.
  induction n as [| n IH]; intros ptr bytes_read w.
  - exists bytes_read, [], w. simpl. rewrite app_nil_r. repeat split.
  - simpl. unfold bind at 1. rewrite call_eq.
    unfold bind at 1. rewrite call_eq.
    set (w1 := set_mach _ (log (EvStoreByte _ _) _)).
    destruct (IH (ptr + 1) (to_int (bytes_read + 1)) w1)
      as (r & body & w' & Heq & Htr & Hfree & Hreads & Hlock & Hcur & Hframe).
    exists r, (EvInputGetc :: EvStoreByte ptr (fst (input_getc (mach w))) :: body), w'.
    split; [exact Heq |].
    rewrite Htr, Hlock, Hcur, Hframe. subst w1. simpl.
    rewrite <- !app_assoc. repeat split; assumption.
Qed.


Lemma read_brackets fd buffer size w :
  filesys_lock w = false →
  (2 ≤ fd → FDT_COUNT_LIMIT ≤ Z.of_nat (length (fdt (cur w)))) →
  valid_pointer (cur w) buffer →
  ∃ r w' body, read fd buffer size w = Ret r w' ∧
               trace w' = trace w ++ EvLockAcquire :: body ++ [EvLockRelease] ∧
               lock_free body = true ∧
               (file_reads body ≤ 1)%nat ∧
               (fd < 2 → file_reads body = 0%nat) ∧
               filesys_lock w' = false.
Proof.
  intros Hlock Hlen Hv. unfold read. rewrite (checked_valid _ _ _ Hv).
  unfold bind at 1, lock_acquire. rewrite Hlock.
  set (wa := set_filesys_lock true (log EvLockAcquire w)).
  destruct (fd =? STDIN_FILENO).
  { destruct (read_stdin_runs (Z.to_nat size) buffer 0 wa)
      as (r & body & w' & Heq & Htr & Hfree & Hreads & Hl & _ & _).
    unfold bind at 1. rewrite Heq.
    unfold bind, lock_release. rewrite Hl. simpl.
    eexists _, _, body. split; [reflexivity |]. simpl.
    rewrite Htr. simpl. rewrite <- !app_assoc.
    repeat split; [exact Hfree | lia | intros _; exact Hreads]. }
  destruct (Z.ltb_spec fd 2) as [Hfd | Hfd].
  { unfold bind, lock_release. simpl.
    eexists _, _, []. split; [reflexivity |]. simpl.
    rewrite <- !app_assoc. repeat split. unfold file_reads. simpl. lia. }
  destruct (process_get_file_total fd wa (Hlen Hfd)) as [[h |] Hget];
    unfold bind at 1; rewrite Hget.
  - unfold bind at 1. rewrite call_eq.
    unfold bind, lock_release. simpl.
    eexists _, _, [EvFileRead h buffer size]. split; [reflexivity |]. simpl.
    rewrite <- !app_assoc. repeat split; unfold file_reads; simpl; lia.
  - unfold bind, lock_release. simpl.
    eexists _, _, []. split; [reflexivity |]. simpl.
    rewrite <- !app_assoc. repeat split. unfold file_reads. simpl. lia.
Qed.



(** C10.  With a valid buffer [write] to descriptor 1 is one [putbuf] call
    and nothing else: no acquire, no release, the lock as it was, whoever
    holds it.  [read] from descriptor 0 does take the lock: entered with
    the lock free it runs its console loop between an acquire and a
    release, and entered with the lock held it fails at the acquire. *)
Theorem write_console_lock_free buffer size w :
  valid_pointer (cur w) buffer →
  (∃ w', write STDOUT_FILENO buffer size w = Ret (to_int size) w' ∧
         trace w' = trace w ++ [EvPutbuf buffer size] ∧
         lock_free [EvPutbuf buffer size] = true ∧
         filesys_lock w' = filesys_lock w) ∧
  (filesys_lock w = false →
   ∃ r w' body, read STDIN_FILENO buffer size w = Ret r w' ∧
                trace w' = trace w ++ EvLockAcquire :: body ++ [EvLockRelease] ∧
                lock_free body = true ∧ file_reads body = 0%nat) ∧
  (filesys_lock w = true →
   read STDIN_FILENO buffer size w = Stop KernelPanic w).
Proof.
  intros Hv. split; [| split].
  - unfold write. rewrite (checked_valid _ _ _ Hv). simpl.
    unfold bind. rewrite call_eq.
    eexists. split; [reflexivity |]. repeat split.
  - intros Hlock.
    destruct (read_brackets STDIN_FILENO buffer size w Hlock) as
      (r & w' & body & Heq & Htr & Hfree & _ & Hreads & _);
      [unfold STDIN_FILENO; lia | exact Hv |].
    exists r, w', body. repeat split; try assumption.
    apply Hreads. unfold STDIN_FILENO. lia.
  - intros Hlock. unfold read. rewrite (checked_valid _ _ _ Hv).
    unfold bind, lock_acquire. rewrite Hlock. reflexivity.
Qed.

(** *** Who writes [exit_status] *)

Lemma keeps_ret {A} (a : A) : keeps_status (ret a).
Proof. intros w. reflexivity. Qed.

Lemma keeps_bind {A B} (m : M A) (k : A → M B) :
  keeps_status m → (∀ a, keeps_status (k a)) → keeps_status (bind m k).
Proof.
  intros Hm Hk w. unfold bind.
  specialize (Hm w). destruct (m w) as [a w1 | s w1]; [| exact Hm].
  specialize (Hk a w1). destruct (k a w1) as [b w2 | s w2].
  - congruence.
  - destruct Hk as [Hk | (-> & status & w0 & -> & H0)].
    + left. congruence.
    + right. split; [reflexivity |].
      exists status, w0. split; [reflexivity | congruence].
Qed.

Lemma keeps_call {A} e (f : machine → A * machine) : keeps_status (call e f).
Proof. intros w. rewrite call_eq. reflexivity. Qed.

Lemma keeps_thread_current : keeps_status thread_current.
Proof. intros w. reflexivity. Qed.

Lemma keeps_get_frame : keeps_status get_frame.
Proof. intros w. reflexivity. Qed.

Lemma keeps_store_rax v : keeps_status (store_rax v).
Proof. intros w. reflexivity. Qed.

Lemma keeps_falls_off_end : keeps_status falls_off_end.
Proof. intros w. reflexivity. Qed.

Lemma keeps_set_parent_if f : keeps_status (modify_thread (set_parent_if f)).
Proof. intros w. reflexivity. Qed.

Lemma keeps_set_next_fd n : keeps_status (modify_thread (set_next_fd n)).
Proof. intros w. reflexivity. Qed.

Lemma keeps_fdt_get i : keeps_status (fdt_get i).
Proof.
  intros w. unfold fdt_get.
  destruct (_ && _); [reflexivity | left; reflexivity].
Qed.

Lemma keeps_fdt_set i v : keeps_status (fdt_set i v).
Proof.
  intros w. unfold fdt_set.
  destruct (_ && _); [reflexivity | left; reflexivity].
Qed.

Lemma keeps_lock_acquire : keeps_status lock_acquire.
Proof.
  intros w. unfold lock_acquire.
  destruct (filesys_lock w); [left; reflexivity | reflexivity].
Qed.

Lemma keeps_lock_release : keeps_status lock_release.
Proof.
  intros w. unfold lock_release.
  destruct (filesys_lock w); [reflexivity | left; reflexivity].
Qed.

Lemma keeps_stops {A} s : keeps_status (@stops _ A s).
Proof. intros w. left. reflexivity. Qed.

Lemma keeps_halt : keeps_status halt.
Proof. intros w. left. reflexivity. Qed.

Lemma keeps_exit status : keeps_status (exit status).
Proof.
  intros w. rewrite exit_eq. right. split; [reflexivity |].
  exists status, w. split; reflexivity.
Qed.

Create HintDb keeps discriminated.
#[local] Hint Resolve keeps_ret keeps_call keeps_thread_current keeps_get_frame
  keeps_store_rax keeps_falls_off_end keeps_set_parent_if keeps_set_next_fd
  keeps_fdt_get keeps_fdt_set keeps_lock_acquire keeps_lock_release
  keeps_stops keeps_halt keeps_exit : keeps.

(** Walk through a handler: binds, branches, then the primitives. *)
Ltac keeps :=
  cbv zeta;
  repeat match goal with
         | |- keeps_status (bind _ _) => apply keeps_bind; [| intros ?]
         | |- keeps_status (if ?c then _ else _) => destruct c
         | |- keeps_status (match ?x with _ => _ end) => destruct x
         | |- keeps_status _ => solve [auto with keeps]
         end.

Lemma keeps_check_address addr : keeps_status (check_address addr).
Proof. unfold check_address. keeps. Qed.

Lemma keeps_process_get_file fd : keeps_status (process_get_file fd).
Proof. unfold process_get_file. keeps. Qed.

Lemma keeps_process_add_file f : keeps_status (process_add_file f).
Proof. unfold process_add_file. keeps. Qed.

Lemma keeps_read_stdin n :
  ∀ ptr bytes_read, keeps_status (read_stdin n ptr bytes_read).
Proof.
  induction n as [| n IH]; intros ptr bytes_read; simpl.
  - apply keeps_ret.
  - keeps.
Qed.

#[local] Hint Resolve keeps_check_address keeps_process_get_file
  keeps_process_add_file keeps_read_stdin : keeps.

Lemma keeps_create path size : keeps_status (create path size).
Proof. unfold create. keeps. Qed.

Lemma keeps_remove path : keeps_status (remove path).
Proof. unfold remove. keeps. Qed.

Lemma keeps_open path : keeps_status (open path).
Proof. unfold open. keeps. Qed.

Lemma keeps_filesize fd : keeps_status (filesize fd).
Proof. unfold filesize. keeps. Qed.

Lemma keeps_exec cmd_line : keeps_status (exec cmd_line).
Proof. unfold exec, do_process_exec. keeps. Qed.

Lemma keeps_read fd buffer size : keeps_status (read fd buffer size).
Proof. unfold read. keeps. Qed.

Lemma keeps_write fd buffer size : keeps_status (write fd buffer size).
Proof. unfold write. keeps. Qed.

Lemma keeps_seek fd position : keeps_status (seek fd position).
Proof. unfold seek. keeps. Qed.

Lemma keeps_tell fd : keeps_status (tell fd).
Proof. unfold tell. keeps. Qed.

Lemma keeps_wait pid : keeps_status (wait pid).
Proof. unfold wait. keeps. Qed.

Lemma keeps_close fd : keeps_status (close fd).
Proof. unfold close. keeps. Qed.

Lemma keeps_fork thread_name : keeps_status (fork thread_name).
Proof. unfold fork. keeps. Qed.

#[local] Hint Resolve keeps_create keeps_remove keeps_open keeps_filesize keeps_exec
  keeps_read keeps_write keeps_seek keeps_tell keeps_wait keeps_close
  keeps_fork : keeps.

Lemma keeps_syscall_handler : keeps_status syscall_handler.
Proof. unfold syscall_handler. keeps. Qed.

(** C9.  [exit] cannot fail: it stores [status] in the running thread's
    own [exit_status], prints the termination message with the thread's
    name and the status, and ends the thread; whatever follows the call
    never runs.  No other path through the dispatcher writes
    [exit_status], so a thread's status is stored by its own [exit], with
    no second store after it. *)
Theorem exit_contract status w :
  exit status w = Stop ThreadExit (exited status w) ∧
  cur (exited status w) = set_exit_status status (cur w) ∧
  exit_status (cur (exited status w)) = status ∧
  trace (exited status w) =
    trace w ++ [EvPrintf (name (cur w)) status; EvThreadExit] ∧
  (∀ B (k : unit → M B),
     bind (exit status) k w = Stop ThreadExit (exited status w)) ∧
  keeps_status syscall_handler.
Proof.
  split; [apply exit_eq |]. split; [reflexivity |]. split; [reflexivity |].
  split; [| split].
  - unfold exited. simpl. rewrite <- app_assoc. reflexivity.
  - intros B k. apply exit_then.
  - apply keeps_syscall_handler.
Qed.

End Facts.

(** ** Further facts: what the handlers leave alone *)

Section Frame_conditions.
Context `{C : Collaborators}.

Lemma preserves_bind {A B} (P : world → world → Prop)
    (m : M A) (k : A → M B) :
  (∀ a b c, P a b → P b c → P a c) →
  preserves P m → (∀ a, preserves P (k a)) → preserves P (bind m k).
Proof.
  intros Htrans Hm Hk w. unfold bind. specialize (Hm w).
  destruct (m w) as [a w1 | s w1]; simpl in *; [| exact Hm].
  exact (Htrans _ _ _ Hm (Hk a w1)).
Qed.

Lemma same_frame_trans a b c : same_frame a b → same_frame b c → same_frame a c.
Proof. unfold same_frame. congruence. Qed.

Lemma same_registers_trans a b c :
  same_registers_but_rax a b → same_registers_but_rax b c →
  same_registers_but_rax a c.
Proof. unfold same_registers_but_rax. congruence. Qed.


Lemma lock_untouched_trans a b c :
  lock_untouched a b → lock_untouched b c → lock_untouched a c.
Proof.
  intros [Hl1 (d1 & Ht1 & Hf1)] [Hl2 (d2 & Ht2 & Hf2)].
  split; [congruence |].
  exists (d1 ++ d2). split.
  - rewrite Ht2, Ht1, app_assoc. reflexivity.
  - rewrite lock_free_app, Hf1, Hf2. reflexivity.
Qed.

Create HintDb handlers discriminated.
#[local] Hint Unfold syscall_handler halt exit create remove open filesize
  exec do_process_exec read write seek tell wait close fork check_address
  process_get_file process_add_file : handlers.

(** Run one primitive of the monad and look at the world it leaves. *)
Ltac run_primitive :=
  intros ?w; try rewrite call_eq;
  cbv [ret thread_current get_frame falls_off_end modify_thread fdt_get
       fdt_set lock_acquire lock_release stops power_off thread_exit
       store_rax];
  repeat match goal with
         | |- context [if ?c then _ else _] => destruct c
         end;
  simpl.

(** Walk through a handler: binds by transitivity, branches by cases, and
    [leaf] at the primitives. *)
Ltac walk trans leaf :=
  cbv zeta;
  repeat match goal with
         | |- preserves _ (bind _ _) =>
             apply preserves_bind; [exact trans | | intros ?]
         | |- preserves _ (if ?c then _ else _) => destruct c
         | |- preserves _ (match ?x with _ => _ end) => destruct x
         | |- preserves _ _ => solve [auto]
         | |- preserves _ _ => solve [run_primitive; leaf]
         end.

Ltac frame_leaf := reflexivity.
Ltac lock_leaf :=
  split; [reflexivity |];
  first [ exists []; split; [symmetry; apply app_nil_r | reflexivity]
        | eexists [_]; split; reflexivity ].

Lemma read_stdin_same_frame n :
  ∀ ptr bytes_read, preserves same_frame (read_stdin n ptr bytes_read).
Proof.
  induction n as [| n IH]; intros ptr bytes_read; simpl;
    walk same_frame_trans frame_leaf.
Qed.


Lemma read_stdin_same_registers n ptr bytes_read :
  preserves same_registers_but_rax (read_stdin n ptr bytes_read).
Proof.
  intros w. unfold same_registers_but_rax.
  rewrite (read_stdin_same_frame n ptr bytes_read w). reflexivity.
Qed.

Lemma read_stdin_lock_untouched n :
  ∀ ptr bytes_read, preserves lock_untouched (read_stdin n ptr bytes_read).
Proof.
  induction n as [| n IH]; intros ptr bytes_read; simpl;
    walk lock_untouched_trans lock_leaf.
Qed.



Lemma syscall_handler_same_registers :
  preserves same_registers_but_rax syscall_handler.
Proof.
  pose proof read_stdin_same_registers as Hloop.
  autounfold with handlers.
  walk same_registers_trans frame_leaf.
Qed.

(** X3.  Whatever the system call and however it ends, the dispatcher
    leaves every register of the frame but [rax] as the caller set it:
    the argument registers, the instruction pointer, the flags and the
    stack pointer. *)
Theorem syscall_handler_keeps_registers w :
  let f := frame w in
  let f' := frame (final (syscall_handler w)) in
  rdi (R f') = rdi (R f) ∧ rsi (R f') = rsi (R f) ∧ rdx (R f') = rdx (R f) ∧
  r10 (R f') = r10 (R f) ∧ r8 (R f') = r8 (R f) ∧ r9 (R f') = r9 (R f) ∧
  rip f' = rip f ∧ eflags f' = eflags f ∧ rsp f' = rsp f.
Proof.
  intros f f'. subst f f'.
  pose proof (syscall_handler_same_registers w) as E.
  unfold same_registers_but_rax, set_rax in E.
  injection E. intros. repeat split; assumption.
Qed.

End Frame_conditions.

(** ** Further facts: the dispatcher and the register convention *)

Section Dispatch.
Context `{C : Collaborators}.

Ltac labels_distinct :=
  let H := fresh "Hnr" in
  pose proof syscall_nr_distinct as H;
  repeat (apply NoDup_cons in H as [? H]);
  repeat match goal with
         | Hn : _ ∉ _ :: _ |- _ => apply not_elem_of_cons in Hn as [? Hn]
         end.

Ltac take_case :=
  labels_distinct;
  unfold syscall_handler, bind at 1, get_frame; cbv zeta;
  repeat match goal with
         | |- context [?a =? ?b] =>
             destruct (Z.eqb_spec a b) as [? | ?]; [exfalso; congruence |]
         end;
  repeat match goal with
         | |- context [?a =? ?b] =>
             destruct (Z.eqb_spec a b) as [? | ?]; [| exfalso; congruence]
         end;
  reflexivity.

Lemma route_fork w :
  syscall_number (frame w) = SYS_FORK →
  syscall_handler w =
    (modify_thread (set_parent_if (frame w)) ;;
     r <- fork (rdi (R (frame w))) ;; store_rax r) w.
Proof. intros Hn. take_case. Qed.

Lemma route_create w :
  syscall_number (frame w) = SYS_CREATE →
  syscall_handler w =
    (r <- create (rdi (R (frame w))) (to_unsigned (rsi (R (frame w)))) ;;
     store_rax (of_bool r)) w.
Proof. intros Hn. take_case. Qed.

Lemma route_remove w :
  syscall_number (frame w) = SYS_REMOVE →
  syscall_handler w =
    (r <- remove (rdi (R (frame w))) ;; store_rax (of_bool r)) w.
Proof. intros Hn. take_case. Qed.

Lemma route_filesize w :
  syscall_number (frame w) = SYS_FILESIZE →
  syscall_handler w =
    (r <- filesize (to_int (rdi (R (frame w)))) ;; store_rax r) w.
Proof. intros Hn. take_case. Qed.

Lemma to_int_range x : - 2 ^ 31 ≤ to_int x < 2 ^ 31.
Proof.
  unfold to_int.
  pose proof (Z.mod_pos_bound (x + 2 ^ 31) (2 ^ 32)). lia.
Qed.

Lemma to_int_congruent x : to_int x mod 2 ^ 32 = x mod 2 ^ 32.
Proof.
  unfold to_int.
  rewrite <- (Z.add_opp_r _ (2 ^ 31)), Zplus_mod_idemp_l.
  f_equal. lia.
Qed.

Lemma to_int_of_uint64 r : - 2 ^ 31 ≤ r < 2 ^ 31 → to_int (to_uint64 r) = r.
Proof.
  intros H. unfold to_uint64.
  destruct (Z_lt_ge_dec r 0) as [Hneg | Hpos].
  - rewrite <- (Z_mod_plus_full r 1 (2 ^ 64)).
    rewrite Z.mod_small by lia.
    unfold to_int.
    replace (r + 1 * 2 ^ 64 + 2 ^ 31) with (r + 2 ^ 31 + 2 ^ 32 * 2 ^ 32) by lia.
    rewrite Z_mod_plus_full, Z.mod_small by lia. lia.
  - rewrite Z.mod_small by lia. apply to_int_small. lia.
Qed.

(** X5.  The status a process ends with through the exit call is the low
    32 bits of [rdi] read as a signed number: it always lies in the range
    of [int] and agrees with [rdi] modulo 2^32, whatever the upper half of
    the register holds. *)
Theorem syscall_exit_status w :
  syscall_number (frame w) = SYS_EXIT →
  let status := to_int (rdi (R (frame w))) in
  syscall_handler w = Stop ThreadExit (exited status w) ∧
  exit_status (cur (exited status w)) = status ∧
  - 2 ^ 31 ≤ status < 2 ^ 31 ∧
  status mod 2 ^ 32 = rdi (R (frame w)) mod 2 ^ 32.
Proof.
  intros Hn status. split; [| split; [reflexivity | split]].
  - rewrite dispatch_exit by exact Hn. apply exit_eq.
  - apply to_int_range.
  - apply to_int_congruent.
Qed.

(** X6.  A result stored in [rax] is widened with its sign: the register
    then holds a value below 2^64, and reading its low 32 bits back as an
    [int], as the caller does, gives the handler's result again, -1
    included. *)
Theorem store_rax_round_trip r w :
  - 2 ^ 31 ≤ r < 2 ^ 31 →
  ∃ w', store_rax r w = Ret tt w' ∧
        0 ≤ rax (R (frame w')) < 2 ^ 64 ∧
        to_int (rax (R (frame w'))) = r ∧
        (r < 0 → rax (R (frame w')) = 2 ^ 64 + r) ∧
        (0 ≤ r → rax (R (frame w')) = r).
Proof.
  intros Hr. eexists. split; [reflexivity |]. simpl.
  split; [apply Z.mod_pos_bound; reflexivity |].
  split; [apply to_int_of_uint64, Hr |].
  unfold to_uint64. split; intros Hs.
  - rewrite <- (Z.mod_small (2 ^ 64 + r) (2 ^ 64)) by lia.
    rewrite <- (Z_mod_plus_full r 1 (2 ^ 64)). f_equal. lia.
  - apply Z.mod_small. lia.
Qed.

(** X7.  fork does not look at its pointer: whatever [rdi] holds, null
    and kernel addresses included, the dispatcher copies the caller's frame
    into [parent_if], hands the pointer and that copy to process_fork, and
    stores the answer in [rax]; the process is not terminated. *)
Theorem syscall_fork_unchecked w :
  syscall_number (frame w) = SYS_FORK →
  let thread_name := rdi (R (frame w)) in
  let pid := fst (process_fork thread_name (frame w) (mach w)) in
  ∃ w', syscall_handler w = Ret tt w' ∧
        parent_if (cur w') = frame w ∧
        trace w' = trace w ++ [EvProcessFork thread_name (frame w)] ∧
        rax (R (frame w')) = to_uint64 pid ∧
        exit_status (cur w') = exit_status (cur w) ∧
        fdt (cur w') = fdt (cur w).
Proof.
  intros Hn thread_name pid.
  rewrite route_fork by exact Hn.
  unfold fork, bind, modify_thread, thread_current. simpl.
  rewrite call_eq. simpl.
  eexists. split; [reflexivity |]. simpl. repeat split.
Qed.

(** X8.  With a valid path pointer, create and remove each make exactly
    one filesystem call and leave 1 in [rax] when the filesystem said yes
    and 0 when it said no; create passes on the low 32 bits of [rsi] as
    the size.  The thread is as before. *)
Theorem syscall_create_remove w :
  valid_pointer (cur w) (rdi (R (frame w))) →
  let path := rdi (R (frame w)) in
  let size := to_unsigned (rsi (R (frame w))) in
  (syscall_number (frame w) = SYS_CREATE →
   ∃ w', syscall_handler w = Ret tt w' ∧
         rax (R (frame w')) = of_bool (fst (filesys_create path size (mach w))) ∧
         trace w' = trace w ++ [EvFilesysCreate path size] ∧
         cur w' = cur w) ∧
  (syscall_number (frame w) = SYS_REMOVE →
   ∃ w', syscall_handler w = Ret tt w' ∧
         rax (R (frame w')) = of_bool (fst (filesys_remove path (mach w))) ∧
         trace w' = trace w ++ [EvFilesysRemove path] ∧
         cur w' = cur w).
Proof.
  intros Hv path size. split; intros Hn.
  - rewrite route_create by exact Hn.
    unfold bind at 1, create. rewrite (checked_valid _ _ _ Hv), call_eq.
    fold path size.
    eexists. split; [reflexivity |]. simpl.
    split; [| split; reflexivity].
    destruct (fst _); reflexivity.
  - rewrite route_remove by exact Hn.
    unfold bind at 1, remove. rewrite (checked_valid _ _ _ Hv), call_eq.
    fold path.
    eexists. split; [reflexivity |]. simpl.
    split; [| split; reflexivity].
    destruct (fst _); reflexivity.
Qed.

End Dispatch.

(** ** Further facts: descriptors in filesize, read, seek, tell and close *)

Section Descriptors.
Context `{C : Collaborators}.

Lemma no_file_lookup fd w :
  no_file (cur w) fd → process_get_file fd w = Ret None w.
Proof.
  intros [H | [H | H]];
    [apply process_get_file_outside; lia
    | apply process_get_file_outside; lia |].
  destruct (Z_lt_ge_dec fd 2); [apply process_get_file_outside; lia |].
  destruct (Z_lt_ge_dec fd FDT_COUNT_LIMIT);
    [| apply process_get_file_outside; lia].
  apply process_get_file_slot; [lia | exact H].
Qed.

Lemma open_file_lookup fd h w :
  open_file (cur w) fd h → process_get_file fd w = Ret (Some h) w.
Proof. intros [Hr Hs]. apply process_get_file_slot; assumption. Qed.

(** X9.  filesize answers -1 for a descriptor that names no open file
    (below 2, at or above FDT_COUNT_LIMIT, or an empty slot) and asks the
    filesystem nothing; for an open file it returns what file_length
    returns.  Through the dispatcher the -1 reaches [rax] as
    2^64 - 1. *)
Theorem filesize_contract fd w :
  (no_file (cur w) fd → filesize fd w = Ret (-1) w) ∧
  (∀ h, open_file (cur w) fd h →
        filesize fd w =
          Ret (fst (file_length h (mach w)))
              (set_mach (snd (file_length h (mach w)))
                        (log (EvFileLength h) w))) ∧
  (syscall_number (frame w) = SYS_FILESIZE →
   no_file (cur w) (to_int (rdi (R (frame w)))) →
   syscall_handler w =
     Ret tt (set_frame (set_rax (2 ^ 64 - 1) (frame w)) w)).
Proof.
  split; [| split].
  - intros H. unfold filesize, bind. rewrite (no_file_lookup _ _ H). reflexivity.
  - intros h H. unfold filesize, bind. rewrite (open_file_lookup _ _ _ H).
    apply call_eq.
  - intros Hn H. rewrite route_filesize by exact Hn.
    unfold bind at 1, filesize, bind at 1.
    rewrite (no_file_lookup _ _ H). reflexivity.
Qed.

(** X10.  seek on a descriptor that names no open file does nothing:
    the world is as before.  tell on such a descriptor asks the filesystem
    nothing and returns without a return statement.  On an open file each
    makes its one filesystem call, and tell's result is the position
    converted to [unsigned]. *)
Theorem seek_tell_contract fd position w :
  (no_file (cur w) fd → seek fd position w = Ret tt w) ∧
  (no_file (cur w) fd → tell fd w = Ret (indeterminate (mach w)) w) ∧
  (∀ h, open_file (cur w) fd h →
        seek fd position w =
          Ret tt (set_mach (snd (file_seek h position (mach w)))
                           (log (EvFileSeek h position) w))) ∧
  (∀ h, open_file (cur w) fd h →
        tell fd w =
          Ret (to_unsigned (fst (file_tell h (mach w))))
              (set_mach (snd (file_tell h (mach w))) (log (EvFileTell h) w)) ∧
        0 ≤ to_unsigned (fst (file_tell h (mach w))) < 2 ^ 32).
Proof.
  split; [| split; [| split]].
  - intros H. unfold seek, bind. rewrite (no_file_lookup _ _ H). reflexivity.
  - intros H. unfold tell, bind. rewrite (no_file_lookup _ _ H). reflexivity.
  - intros h H. unfold seek, bind. rewrite (open_file_lookup _ _ _ H).
    rewrite call_eq. destruct (fst _). reflexivity.
  - intros h H. split.
    + unfold tell, bind. rewrite (open_file_lookup _ _ _ H).
      rewrite call_eq. reflexivity.
    + apply Z.mod_pos_bound. reflexivity.
Qed.




Lemma same_cur_lookup fd w w2 :
  cur w2 = cur w →
  ∀ r, process_get_file fd w = Ret r w → process_get_file fd w2 = Ret r w2.
Proof.
  intros Hcur r. unfold process_get_file.
  destruct (_ || _); [intros [= <-]; reflexivity |].
  unfold fdt_get. rewrite Hcur.
  destruct (_ && _); [intros [= <-]; reflexivity | discriminate].
Qed.

Lemma read_after_lock fd buffer size w :
  valid_pointer (cur w) buffer → filesys_lock w = false → fd ≠ 0 →
  read fd buffer size w =
    (if fd <? 2 then lock_release ;; ret (-1)
     else f <- process_get_file fd ;;
          match f with
          | None => lock_release ;; ret (-1)
          | Some h =>
              bytes_read <- call (EvFileRead h buffer size)
                                 (file_read h buffer size) ;;
              lock_release ;; ret bytes_read
          end) (set_filesys_lock true (log EvLockAcquire w)).
Proof.
  intros Hv Hlock Hfd.
  unfold read. rewrite (checked_valid _ _ _ Hv).
  unfold bind at 1, lock_acquire. rewrite Hlock.
  unfold STDIN_FILENO.
  destruct (Z.eqb_spec fd 0) as [| _]; [contradiction | reflexivity].
Qed.

Lemma read_no_file fd buffer size w :
  valid_pointer (cur w) buffer → filesys_lock w = false → fd ≠ 0 →
  no_file (cur w) fd →
  read fd buffer size w =
    Ret (-1) (set_filesys_lock false
                (log EvLockRelease
                   (set_filesys_lock true (log EvLockAcquire w)))).
Proof.
  intros Hv Hlock Hfd H. rewrite read_after_lock by assumption.
  set (wa := set_filesys_lock true (log EvLockAcquire w)).
  destruct (Z.ltb_spec fd 2); [reflexivity |].
  unfold bind at 1.
  rewrite (same_cur_lookup fd w wa eq_refl _ (no_file_lookup _ _ H)).
  reflexivity.
Qed.

Lemma write_no_file fd buffer size w :
  valid_pointer (cur w) buffer → fd ≠ 1 → no_file (cur w) fd →
  write fd buffer size w = Ret (-1) w.
Proof.
  intros Hv Hfd H. unfold write. rewrite (checked_valid _ _ _ Hv).
  unfold STDOUT_FILENO.
  destruct (Z.eqb_spec fd 1) as [| _]; [contradiction |].
  destruct (fd <? 2); [reflexivity |].
  unfold bind. rewrite (no_file_lookup _ _ H). reflexivity.
Qed.

(** X12.  read from a descriptor other than 0, with a valid buffer and
    the lock free: when the descriptor names no open file (descriptor 1
    and negative ones included) it returns -1 and the only trace is an
    acquire and a release; for an open file it returns what file_read
    returns, called once on the caller's buffer and size. *)
Theorem read_file_contract fd buffer size w :
  valid_pointer (cur w) buffer → filesys_lock w = false → fd ≠ 0 →
  (no_file (cur w) fd →
   read fd buffer size w =
     Ret (-1) (set_filesys_lock false
                 (log EvLockRelease
                    (set_filesys_lock true (log EvLockAcquire w))))) ∧
  (∀ h, open_file (cur w) fd h →
        ∃ w', read fd buffer size w =
                Ret (fst (file_read h buffer size (mach w))) w' ∧
              trace w' = trace w ++
                [EvLockAcquire; EvFileRead h buffer size; EvLockRelease] ∧
              mach w' = snd (file_read h buffer size (mach w)) ∧
              cur w' = cur w ∧ filesys_lock w' = false).
Proof.
  intros Hv Hlock Hfd. split.
  - apply read_no_file; assumption.
  - intros h H. rewrite read_after_lock by assumption.
    set (wa := set_filesys_lock true (log EvLockAcquire w)).
    destruct (Z.ltb_spec fd 2) as [Hlt |]; [destruct H; lia |].
    unfold bind at 1.
    rewrite (same_cur_lookup fd w wa eq_refl _ (open_file_lookup _ _ _ H)).
    unfold bind at 1. rewrite call_eq.
    eexists. split; [reflexivity |]. simpl.
    rewrite <- !app_assoc. repeat split.
Qed.

Lemma close_slot fd slot w :
  2 ≤ fd < next_fd (cur w) → fd < FDT_COUNT_LIMIT →
  fdt (cur w) !! Z.to_nat fd = Some slot →
  close fd w =
    Ret tt (set_cur (set_fdt (<[Z.to_nat fd := None]> (fdt (cur w))) (cur w))
              (set_mach (snd (file_close slot (mach w)))
                        (log (EvFileClose slot) w))).
Proof.
  intros Hfd Hcap Hslot.
  pose proof (lookup_lt_Some _ _ _ Hslot) as Hlen.
  rewrite close_unguarded by exact Hfd.
  unfold bind at 1.
  rewrite (process_get_file_slot fd w slot) by (lia || exact Hslot).
  unfold bind. rewrite call_eq.
  rewrite fdt_set_slot by (simpl; lia). reflexivity.
Qed.

(** X13.  Closing the same descriptor twice closes the file once: the
    second close finds the slot empty, hands [NULL] to file_close, and
    leaves the table as the first close left it. *)
Theorem close_twice fd slot w :
  2 ≤ fd < next_fd (cur w) → fd < FDT_COUNT_LIMIT →
  fdt (cur w) !! Z.to_nat fd = Some slot →
  ∃ w', (close fd ;; close fd) w = Ret tt w' ∧
        trace w' = trace w ++ [EvFileClose slot; EvFileClose None] ∧
        fdt (cur w') = <[Z.to_nat fd := None]> (fdt (cur w)) ∧
        next_fd (cur w') = next_fd (cur w).
Proof.
  intros Hfd Hcap Hslot.
  pose proof (lookup_lt_Some _ _ _ Hslot) as Hlen.
  unfold bind. rewrite (close_slot fd slot w Hfd Hcap Hslot).
  rewrite (close_slot fd None); simpl;
    [| exact Hfd | exact Hcap | apply list_lookup_insert_eq; exact Hlen].
  eexists. split; [reflexivity |]. simpl.
  rewrite <- app_assoc, list_insert_insert_eq. repeat split.
Qed.

(** X14.  close changes at most the one slot it was asked to close: the
    other slots, the number of slots, the cursor [next_fd], and the
    thread's name, page table and exit status are the same after it,
    however it ends. *)
Theorem close_touches_one_slot fd w :
  let t' := cur (final (close fd w)) in
  (∀ j : nat, j ≠ Z.to_nat fd → fdt t' !! j = fdt (cur w) !! j) ∧
  length (fdt t') = length (fdt (cur w)) ∧
  next_fd t' = next_fd (cur w) ∧
  name t' = name (cur w) ∧ pml4 t' = pml4 (cur w) ∧
  exit_status t' = exit_status (cur w).
Proof.
  cbv zeta.
  destruct (Z_le_gt_dec fd 1) as [Hlo | Hlo].
  { rewrite close_guarded by lia. repeat split. }
  destruct (Z_le_gt_dec (next_fd (cur w)) fd) as [Hhi | Hhi].
  { rewrite close_guarded by lia. repeat split. }
  rewrite close_unguarded by lia.
  unfold bind, process_get_file, fdt_get, fdt_set, ret.
  destruct (_ || _); [| destruct (_ && _)]; simpl;
    try (repeat split; fail);
    rewrite call_eq; simpl;
    (destruct (_ && _); simpl; [| repeat split]);
    (split; [intros j Hj; apply list_lookup_insert_ne; congruence |]);
    (split; [apply length_insert |]); repeat split.
Qed.

(** X15.  close compares [fd] with [next_fd], not with the size of the
    table.  When [next_fd] is no larger than the number of slots every
    close returns; when it is larger, a close of a descriptor from 2 on,
    below [next_fd] and past the last slot leaves the table's bounds. *)
Theorem close_bounds fd w :
  (next_fd (cur w) ≤ Z.of_nat (length (fdt (cur w))) →
   ∃ w', close fd w = Ret tt w') ∧
  (2 ≤ fd < next_fd (cur w) → Z.of_nat (length (fdt (cur w))) ≤ fd →
   ∃ w', close fd w = Stop OutOfBounds w').
Proof.
  split.
  - intros Hwf.
    destruct (Z_le_gt_dec fd 1) as [Hlo | Hlo].
    { exists w. apply close_guarded. lia. }
    destruct (Z_le_gt_dec (next_fd (cur w)) fd) as [Hhi | Hhi].
    { exists w. apply close_guarded. lia. }
    rewrite close_unguarded by lia.
    unfold bind, process_get_file, fdt_get, fdt_set, ret.
    destruct (_ || _); simpl.
    + rewrite call_eq. simpl.
      destruct (Z.leb_spec 0 fd); [| lia].
      destruct (Z.ltb_spec fd (Z.of_nat (length (fdt (cur w))))); [| lia].
      simpl. eexists. reflexivity.
    + destruct (Z.leb_spec 0 fd); [| lia].
      destruct (Z.ltb_spec fd (Z.of_nat (length (fdt (cur w))))); [| lia].
      simpl. rewrite call_eq. simpl.
      destruct (Z.leb_spec 0 fd); [| lia].
      destruct (Z.ltb_spec fd (Z.of_nat (length (fdt (cur w))))); [| lia].
      simpl. eexists. reflexivity.
  - intros Hfd Hlen.
    rewrite close_unguarded by lia.
    unfold bind, process_get_file, fdt_get, fdt_set, ret.
    destruct (_ || _); simpl.
    + rewrite call_eq. simpl.
      destruct (Z.leb_spec 0 fd); [| lia].
      destruct (Z.ltb_spec fd (Z.of_nat (length (fdt (cur w))))); [lia |].
      simpl. eexists. reflexivity.
    + destruct (Z.leb_spec 0 fd); [| lia].
      destruct (Z.ltb_spec fd (Z.of_nat (length (fdt (cur w))))); [lia |].
      simpl. eexists. reflexivity.
Qed.

(** X16.  After close a descriptor is dead for every handler: filesize
    and write answer -1, read answers -1, and seek does nothing, none of
    them reaching the filesystem. *)
Theorem use_after_close fd slot w :
  2 ≤ fd < next_fd (cur w) → fd < FDT_COUNT_LIMIT →
  fdt (cur w) !! Z.to_nat fd = Some slot →
  ∃ w', close fd w = Ret tt w' ∧
        no_file (cur w') fd ∧
        filesize fd w' = Ret (-1) w' ∧
        (∀ position, seek fd position w' = Ret tt w') ∧
        (∀ buffer size, valid_pointer (cur w) buffer →
                        write fd buffer size w' = Ret (-1) w') ∧
        (∀ buffer size, valid_pointer (cur w) buffer →
                        filesys_lock w = false →
                        returned (read fd buffer size w') = Some (-1) ∧
                        file_reads (drop (length (trace w'))
                                      (trace (final (read fd buffer size w'))))
                          = 0%nat).
Proof.
  intros Hfd Hcap Hslot.
  pose proof (lookup_lt_Some _ _ _ Hslot) as Hlen.
  rewrite (close_slot fd slot w Hfd Hcap Hslot).
  eexists. split; [reflexivity |].
  match goal with |- no_file (cur ?w1) _ ∧ _ => set (w' := w1) end.
  assert (Hno : no_file (cur w') fd).
  { right. right. simpl. apply list_lookup_insert_eq. exact Hlen. }
  split; [exact Hno |].
  split; [unfold filesize, bind; rewrite (no_file_lookup _ _ Hno); reflexivity |].
  split; [intros position; unfold seek, bind;
          rewrite (no_file_lookup _ _ Hno); reflexivity |].
  split.
  - intros buffer size Hv. apply write_no_file; [exact Hv | lia | exact Hno].
  - intros buffer size Hv Hlock.
    rewrite (read_no_file fd buffer size w') by (assumption || lia).
    split; [reflexivity |]. simpl.
    rewrite <- app_assoc, drop_app_length. reflexivity.
Qed.

End Descriptors.


(** ** The handlers at work on the small machine *)

#[local] Existing Instance demo.

Lemma user_buffer_valid slots cursor :
  valid_pointer (cur (demo_world slots cursor)) user_buffer.
Proof. repeat split; [discriminate | vm_compute; discriminate]. Qed.







(** C4 on the small machine: slot 2 of a full-size table holds a file in
    one world and none in another. *)
Lemma process_get_file_contract_witness :
  FDT_COUNT_LIMIT ≤ Z.of_nat (length (fdt (cur one_open_world))) ∧
  (∃ r, process_get_file 2 one_open_world = Ret r one_open_world ∧ r ≠ None) ∧
  process_get_file 1 one_open_world = Ret None one_open_world.
Proof.
  assert (Hlen : FDT_COUNT_LIMIT ≤ Z.of_nat (length (fdt (cur one_open_world))))
    by (simpl; lia).
  split; [exact Hlen |].
  destruct (process_get_file_contract 2 one_open_world) as [_ H2].
  destruct (process_get_file_contract 1 one_open_world) as [H1 _].
  split.
  - destruct (H2 Hlen) as (r & Heq & Hiff).
    exists r. split; [exact Heq |].
    intros Hr. apply Hiff in Hr.
    destruct Hr as [Hr | [Hr | Hr]]; [lia | simpl in Hr; lia | discriminate Hr].
  - apply H1. left. lia.
Defined.

(** C5 on the small machine: five bytes to the console. *)
Lemma write_contract_witness :
  valid_pointer (cur fresh_world) user_buffer ∧
  ∃ w', write 1 user_buffer 5 fresh_world = Ret 5 w'.
Proof.
  split; [apply user_buffer_valid |].
  destruct (write_contract 1 user_buffer 5 fresh_world (user_buffer_valid _ _))
    as [H _].
  destruct (H eq_refl) as [Heq _].
  eexists. exact Heq.
Defined.

(** C5 refuted as stated: a console write of 2^31 bytes returns a negative
    number, not the size. *)
Lemma write_console_size_wraps :
  valid_pointer (cur fresh_world) user_buffer ∧
  0 ≤ 2147483648 < 2 ^ 32 ∧
  write 1 user_buffer 2147483648 fresh_world =
    Ret (-2147483648) (log (EvPutbuf user_buffer 2147483648) fresh_world) ∧
  (∀ w', write 1 user_buffer 2147483648 fresh_world ≠ Ret 2147483648 w').
Proof.
  split; [apply user_buffer_valid |]. split; [lia |].
  assert (Hrun : write 1 user_buffer 2147483648 fresh_world =
            Ret (-2147483648) (log (EvPutbuf user_buffer 2147483648) fresh_world))
    by reflexivity.
  split; [exact Hrun |].
  intros w' H. rewrite Hrun in H. discriminate H.
Qed.

(** C6 on the small machine: closing the one open descriptor. *)
Lemma close_contract_witness :
  2 ≤ 2 < next_fd (cur one_open_world) ∧ 2 < FDT_COUNT_LIMIT ∧
  fdt (cur one_open_world) !! Z.to_nat 2 = Some (Some 9) ∧
  (∃ w', close 2 one_open_world = Ret tt w' ∧
         trace w' = [EvFileClose (Some 9)] ∧
         process_get_file 2 w' = Ret None w') ∧
  close 1 one_open_world = Ret tt one_open_world ∧
  close 3 one_open_world = Ret tt one_open_world.
Proof.
  assert (Hr : 2 ≤ 2 < next_fd (cur one_open_world)) by (simpl; lia).
  assert (Hc : 2 < FDT_COUNT_LIMIT) by (simpl; lia).
  split; [exact Hr |]. split; [exact Hc |]. split; [reflexivity |].
  destruct (close_contract 2 one_open_world) as (_ & H & _).
  destruct (close_contract 1 one_open_world) as (H1 & _).
  destruct (close_contract 3 one_open_world) as (H3 & _).
  split; [| split].
  - destruct (H 9 Hr Hc eq_refl) as (w' & Heq & Htr & _ & _ & Hget).
    exists w'. repeat split; assumption.
  - apply H1. left. lia.
  - apply H3. right. simpl. lia.
Defined.

(** C7 on the small machine: the image does not load, the process ends
    with status -1. *)
Lemma exec_contract_witness :
  valid_pointer (cur fresh_world) user_buffer ∧
  ∃ w', exec user_buffer fresh_world = Stop ThreadExit w' ∧
        exit_status (cur w') = -1 ∧
        trace w' = [EvPallocGetPage 0; EvStrlcpy 0x8004100000 user_buffer 4096;
                    EvProcessExec 0x8004100000; EvPrintf "main" (-1);
                    EvThreadExit].
Proof.
  split; [apply user_buffer_valid |].
  destruct (exec_contract user_buffer fresh_world (user_buffer_valid _ _))
    as (_ & H & _).
  destruct H as [Heq Hst]; [discriminate | reflexivity |].
  eexists. split; [exact Heq |]. split; [exact Hst | reflexivity].
Defined.

(** C8 on the small machine: number 99 has no case; number 13 is close. *)
Lemma syscall_handler_contract_witness :
  (syscall_number (frame (call_world 99 0)) ∉
     [SYS_HALT; SYS_EXIT; SYS_FORK; SYS_EXEC; SYS_WAIT; SYS_CREATE; SYS_REMOVE;
      SYS_OPEN; SYS_FILESIZE; SYS_READ; SYS_WRITE; SYS_SEEK; SYS_TELL; SYS_CLOSE]) ∧
  syscall_handler (call_world 99 0) = Ret tt (call_world 99 0) ∧
  syscall_number (frame (call_world 13 2)) = SYS_CLOSE ∧
  rax (R (frame (final (syscall_handler (call_world 13 2))))) = 13.
Proof.
  assert (Hno : syscall_number (frame (call_world 99 0)) ∉
            [SYS_HALT; SYS_EXIT; SYS_FORK; SYS_EXEC; SYS_WAIT; SYS_CREATE;
             SYS_REMOVE; SYS_OPEN; SYS_FILESIZE; SYS_READ; SYS_WRITE;
             SYS_SEEK; SYS_TELL; SYS_CLOSE]).
  { apply (bool_decide_unpack _). vm_compute. exact I. }
  split; [exact Hno |].
  destruct (syscall_handler_contract (call_world 99 0)) as (H & _).
  destruct (syscall_handler_contract (call_world 13 2))
    as (_ & _ & _ & _ & _ & Hvoid).
  split; [exact (H Hno) |]. split; [reflexivity |].
  rewrite Hvoid; [reflexivity |].
  right. right. right. reflexivity.
Defined.

(** C10 on the small machine: a console write while the lock is free. *)
Lemma write_console_lock_free_witness :
  valid_pointer (cur fresh_world) user_buffer ∧
  ∃ w', write STDOUT_FILENO user_buffer 5 fresh_world = Ret 5 w' ∧
        trace w' = [EvPutbuf user_buffer 5] ∧
        filesys_lock w' = false.
Proof.
  split; [apply user_buffer_valid |].
  destruct (write_console_lock_free user_buffer 5 fresh_world
              (user_buffer_valid _ _)) as [(w' & Heq & Htr & _ & Hl) _].
  exists w'. repeat split; assumption.
Defined.

(** The scenario of the specification on the small machine: the first
    open yields descriptor 2, a write through it returns the byte count,
    and after close a read through it returns -1. *)
Example open_write_close_read :
  let session := fd <- open user_buffer ;;
                 n <- write fd user_buffer 2 ;;
                 close fd ;;
                 r <- read fd user_buffer 2 ;;
                 ret (fd, n, r) in
  returned (session fresh_world) = Some (2, 2, -1) ∧
  filesys_lock (final (session fresh_world)) = false ∧
  trace (final (session fresh_world)) =
    [EvFilesysOpen user_buffer;
     EvLockAcquire; EvFileWrite 0x8004200000 user_buffer 2; EvLockRelease;
     EvFileClose (Some 0x8004200000);
     EvLockAcquire; EvLockRelease].
Proof. repeat split; vm_compute; reflexivity. Qed.

(** ** The further facts on the small machine *)

(** X5: a caller that passed -1 in a 64-bit register ends with -1. *)
Lemma syscall_exit_status_witness :
  syscall_number (frame (call_world 1 (2 ^ 64 - 1))) = SYS_EXIT ∧
  ∃ w', syscall_handler (call_world 1 (2 ^ 64 - 1)) = Stop ThreadExit w' ∧
        exit_status (cur w') = -1.
Proof.
  split; [reflexivity |].
  pose proof (syscall_exit_status (call_world 1 (2 ^ 64 - 1)) eq_refl) as H.
  cbv zeta in H. destruct H as (Heq & Hst & _).
  eexists. split; [exact Heq | exact Hst].
Defined.

(** X6: -1 travels as 2^64 - 1. *)
Lemma store_rax_round_trip_witness :
  - 2 ^ 31 ≤ -1 < 2 ^ 31 ∧
  ∃ w', store_rax (-1) fresh_world = Ret tt w' ∧
        rax (R (frame w')) = 2 ^ 64 + -1 ∧
        to_int (rax (R (frame w'))) = -1.
Proof.
  assert (Hr : - 2 ^ 31 ≤ -1 < 2 ^ 31) by lia.
  split; [exact Hr |].
  destruct (store_rax_round_trip (-1) fresh_world Hr)
    as (w' & Heq & _ & Hback & Hneg & _).
  exists w'. split; [exact Heq |]. split; [apply Hneg; lia | exact Hback].
Defined.

(** X7: fork of the null pointer goes through. *)
Lemma syscall_fork_unchecked_witness :
  syscall_number (frame (call_world 2 0)) = SYS_FORK ∧
  ∃ w', syscall_handler (call_world 2 0) = Ret tt w' ∧
        parent_if (cur w') = frame (call_world 2 0) ∧
        trace w' = [EvProcessFork 0 (frame (call_world 2 0))].
Proof.
  split; [reflexivity |].
  pose proof (syscall_fork_unchecked (call_world 2 0) eq_refl) as H.
  cbv zeta in H. destruct H as (w' & Heq & Hp & Htr & _).
  exists w'. split; [exact Heq |]. split; [exact Hp | exact Htr].
Defined.

(** X8: create on the small machine always succeeds. *)
Lemma syscall_create_remove_witness :
  valid_pointer (cur (call_world 5 user_buffer))
                (rdi (R (frame (call_world 5 user_buffer)))) ∧
  syscall_number (frame (call_world 5 user_buffer)) = SYS_CREATE ∧
  ∃ w', syscall_handler (call_world 5 user_buffer) = Ret tt w' ∧
        rax (R (frame w')) = 1.
Proof.
  assert (Hv : valid_pointer (cur (call_world 5 user_buffer))
                 (rdi (R (frame (call_world 5 user_buffer)))))
    by exact (user_buffer_valid (replicate 8 None) 2).
  split; [exact Hv |]. split; [reflexivity |].
  pose proof (syscall_create_remove (call_world 5 user_buffer) Hv) as H.
  cbv zeta in H. destruct H as [H _].
  destruct (H eq_refl) as (w' & Heq & Hrax & _).
  exists w'. split; [exact Heq | exact Hrax].
Defined.

(** X9: the size of descriptor 1, and of the open descriptor 2. *)
Lemma filesize_contract_witness :
  no_file (cur one_open_world) 1 ∧
  open_file (cur one_open_world) 2 9 ∧
  filesize 1 one_open_world = Ret (-1) one_open_world ∧
  ∃ w', filesize 2 one_open_world = Ret 0 w'.
Proof.
  assert (Hno : no_file (cur one_open_world) 1) by (left; lia).
  assert (Hop : open_file (cur one_open_world) 2 9)
    by (split; [simpl; lia | reflexivity]).
  split; [exact Hno |]. split; [exact Hop |].
  destruct (filesize_contract 1 one_open_world) as (H1 & _ & _).
  destruct (filesize_contract 2 one_open_world) as (_ & H2 & _).
  split; [exact (H1 Hno) |].
  eexists. exact (H2 9 Hop).
Defined.

(** X10: seek on the unopened descriptor 5 and on the open descriptor 2. *)
Lemma seek_tell_contract_witness :
  no_file (cur one_open_world) 5 ∧
  open_file (cur one_open_world) 2 9 ∧
  seek 5 7 one_open_world = Ret tt one_open_world ∧
  ∃ w', seek 2 7 one_open_world = Ret tt w' ∧ trace w' = [EvFileSeek 9 7].
Proof.
  assert (Hno : no_file (cur one_open_world) 5) by (right; right; reflexivity).
  assert (Hop : open_file (cur one_open_world) 2 9)
    by (split; [simpl; lia | reflexivity]).
  split; [exact Hno |]. split; [exact Hop |].
  destruct (seek_tell_contract 5 7 one_open_world) as (H1 & _).
  destruct (seek_tell_contract 2 7 one_open_world) as (_ & _ & H2 & _).
  split; [exact (H1 Hno) |].
  eexists. split; [exact (H2 9 Hop) | reflexivity].
Defined.


(** X12: read on the open descriptor 2 and on descriptor 1. *)
Lemma read_file_contract_witness :
  valid_pointer (cur one_open_world) user_buffer ∧
  filesys_lock one_open_world = false ∧ 2 ≠ 0 ∧
  open_file (cur one_open_world) 2 9 ∧
  ∃ w', read 2 user_buffer 4 one_open_world = Ret 0 w' ∧
        trace w' = [EvLockAcquire; EvFileRead 9 user_buffer 4; EvLockRelease].
Proof.
  assert (Hne : 2 ≠ 0) by lia.
  assert (Hop : open_file (cur one_open_world) 2 9)
    by (split; [simpl; lia | reflexivity]).
  split; [apply user_buffer_valid |]. split; [reflexivity |].
  split; [exact Hne |]. split; [exact Hop |].
  destruct (read_file_contract 2 user_buffer 4 one_open_world
              (user_buffer_valid _ _) eq_refl Hne) as [_ H].
  destruct (H 9 Hop) as (w' & Heq & Htr & _).
  exists w'. split; [exact Heq | exact Htr].
Defined.

(** X13: the open descriptor 2 closed twice. *)
Lemma close_twice_witness :
  2 ≤ 2 < next_fd (cur one_open_world) ∧ 2 < FDT_COUNT_LIMIT ∧
  fdt (cur one_open_world) !! Z.to_nat 2 = Some (Some 9) ∧
  ∃ w', (close 2 ;; close 2) one_open_world = Ret tt w' ∧
        trace w' = [EvFileClose (Some 9); EvFileClose None].
Proof.
  assert (Hr : 2 ≤ 2 < next_fd (cur one_open_world)) by (simpl; lia).
  assert (Hc : 2 < FDT_COUNT_LIMIT) by (simpl; lia).
  split; [exact Hr |]. split; [exact Hc |]. split; [reflexivity |].
  destruct (close_twice 2 (Some 9) one_open_world Hr Hc eq_refl)
    as (w' & Heq & Htr & _).
  exists w'. split; [exact Heq | exact Htr].
Defined.

(** X15: a cursor inside the table, and a cursor run past its end. *)
Lemma close_bounds_witness :
  next_fd (cur one_open_world) ≤ Z.of_nat (length (fdt (cur one_open_world))) ∧
  (∃ w', close 2 one_open_world = Ret tt w') ∧
  2 ≤ 9 < next_fd (cur overrun_world) ∧
  Z.of_nat (length (fdt (cur overrun_world))) ≤ 9 ∧
  ∃ w', close 9 overrun_world = Stop OutOfBounds w'.
Proof.
  assert (Hwf : next_fd (cur one_open_world)
                ≤ Z.of_nat (length (fdt (cur one_open_world)))) by (simpl; lia).
  assert (Hr : 2 ≤ 9 < next_fd (cur overrun_world)) by (simpl; lia).
  assert (Hl : Z.of_nat (length (fdt (cur overrun_world))) ≤ 9) by (simpl; lia).
  destruct (close_bounds 2 one_open_world) as [H1 _].
  destruct (close_bounds 9 overrun_world) as [_ H2].
  split; [exact Hwf |]. split; [exact (H1 Hwf) |].
  split; [exact Hr |]. split; [exact Hl |]. exact (H2 Hr Hl).
Defined.

(** X16: descriptor 2 after its close. *)
Lemma use_after_close_witness :
  2 ≤ 2 < next_fd (cur one_open_world) ∧ 2 < FDT_COUNT_LIMIT ∧
  fdt (cur one_open_world) !! Z.to_nat 2 = Some (Some 9) ∧
  ∃ w', close 2 one_open_world = Ret tt w' ∧
        filesize 2 w' = Ret (-1) w' ∧
        write 2 user_buffer 4 w' = Ret (-1) w'.
Proof.
  assert (Hr : 2 ≤ 2 < next_fd (cur one_open_world)) by (simpl; lia).
  assert (Hc : 2 < FDT_COUNT_LIMIT) by (simpl; lia).
  split; [exact Hr |]. split; [exact Hc |]. split; [reflexivity |].
  destruct (use_after_close 2 (Some 9) one_open_world Hr Hc eq_refl)
    as (w' & Heq & _ & Hsize & _ & Hwrite & _).
  exists w'. split; [exact Heq |]. split; [exact Hsize |].
  apply Hwrite. apply user_buffer_valid.
Defined.
